(** * scripts/spanish.py: the comment language scanner

    A shallow embedding of [scripts/spanish.py] and the properties of its
    specification.  The script shells out to ripgrep, parses the
    [file:line:content] lines it prints, hands each comment to
    [langdetect.detect] and groups the records by detected language.

    Python [str] values are sequences of Unicode code points; the effects of
    the script (standard output, the child process, the language detector and
    the dictionary object that [get_rust_comments] returns) are threaded
    through a state-and-exception monad.  The command-line parser and the
    standard output stream are parameters of the functions that use them. *)

From Stdlib Require Import String Ascii NArith ZArith Lia.
From Stdlib Require Import DecimalString DecimalNat.
From stdpp Require Import base list.

Set Default Proof Using "Type".

(** ** Python strings *)

(** A character is a Unicode code point, a [str] a sequence of them. *)
Abbreviation char := N (only parsing).
Abbreviation str := (list N) (only parsing).

(** An ASCII literal as a [str]. *)
Definition u (s : string) : str := map N_of_ascii (list_ascii_of_string s).
Arguments u s%_string.

Definition NL : char := 10%N.      (* '\n' *)
Definition COLON : char := 58%N.   (* ':' *)
Definition SLASH : char := 47%N.   (* '/' *)

(** [str.isspace] on one character, which is also the class [\s] of a [str]
    pattern: CPython's [_PyUnicode_IsWhitespace]. *)
Definition isspace (c : char) : bool :=
  ((9 <=? c) && (c <=? 13) || (28 <=? c) && (c <=? 32)
   || (c =? 133) || (c =? 160) || (c =? 5760)
   || (8192 <=? c) && (c <=? 8202)
   || (c =? 8232) || (c =? 8233) || (c =? 8239) || (c =? 8287)
   || (c =? 12288))%N.

Fixpoint lstrip (s : str) : str :=
  match s with
  | c :: s' => if isspace c then lstrip s' else s
  | [] => []
  end.

Definition rstrip (s : str) : str := reverse (lstrip (reverse s)).

(** [s.strip()] *)
Definition strip (s : str) : str := rstrip (lstrip s).

(** [s.partition(sep)] for a one-character [sep], [None] when [sep] does not
    occur. *)
Fixpoint partition_at (sep : char) (s : str) : option (str * str) :=
  match s with
  | [] => None
  | c :: s' =>
      if (c =? sep)%N then Some ([], s')
      else match partition_at sep s' with
           | Some (a, b) => Some (c :: a, b)
           | None => None
           end
  end.

Fixpoint split_n (sep : char) (n : nat) (s : str) : list str :=
  match n with
  | 0 => [s]
  | S n' =>
      match partition_at sep s with
      | None => [s]
      | Some (a, b) => a :: split_n sep n' b
      end
  end.

(** [s.split(sep, maxsplit)] for a one-character [sep]; [maxsplit = None] is
    Python's default [-1], no limit (a string of [n] characters holds at most
    [n] separators). *)
Definition split (sep : char) (maxsplit : option nat) (s : str) : list str :=
  split_n sep (default (length s) maxsplit) s.

(** ** Regular expressions: the fragment the script's pattern is written in *)

Inductive atom :=
| Literal (c : char)   (* an ordinary character *)
| Whitespace           (* \s *)
| AnyChar.             (* the dot *)

Inductive piece :=
| Once (a : atom)      (* a *)
| Star (a : atom)      (* a followed by a star, greedy *)
| Group (a : atom).    (* a capturing group around a greedy starred a *)

Definition atom_matches (a : atom) (c : char) : bool :=
  match a with
  | Literal c' => (c =? c')%N
  | Whitespace => isspace c
  | AnyChar => negb (c =? NL)%N
  end.

(** A greedy star in front of the continuation [k]: it takes every character
    that matches and gives them back one at a time while [k] fails on what
    follows.  The characters taken, and what [k] returned. *)
Fixpoint star {R} (a : atom) (k : str -> option R) (s : str)
  : option (str * R) :=
  match s with
  | c :: s' =>
      if atom_matches a c then
        match star a k s' with
        | Some (taken, r) => Some (c :: taken, r)
        | None => pair [] <$> k s
        end
      else pair [] <$> k s
  | [] => pair [] <$> k []
  end.

(** The pattern against the start of a string: [None] when it does not match,
    else the text of its first group (nothing when it has none). *)
Fixpoint match_here (p : list piece) (s : str) : option str :=
  match p with
  | [] => Some []
  | Once a :: p' =>
      match s with
      | c :: s' => if atom_matches a c then match_here p' s' else None
      | [] => None
      end
  | Star a :: p' => snd <$> star a (match_here p') s
  | Group a :: p' => fst <$> star a (match_here p') s
  end.

(** [re.search(p, s)]: [None] when the pattern matches nowhere, else group 1 of
    the match at the leftmost position where it matches. *)
Fixpoint re_search (p : list piece) (s : str) : option str :=
  match match_here p s with
  | Some group1 => Some group1
  | None =>
      match s with
      | [] => None
      | _ :: s' => re_search p s'
      end
  end.

(** The pattern of [get_rust_comments]: two slashes, any whitespace, and a
    group holding the rest of the line. *)
Definition COMMENT_RE : list piece :=
  [Once (Literal SLASH); Once (Literal SLASH); Star Whitespace; Group AnyChar].

(** [str(n)] for a non-negative [int]. *)
Definition str_of_nat (n : nat) : str :=
  u (NilZero.string_of_uint (Nat.to_uint n)).

(** ** Dictionaries

    A Python [dict] keeps its keys in insertion order and assigning to a key
    it already holds leaves the key where it is, so a dictionary is an
    association list with one entry per key. *)

Definition dict (V : Type) := list (str * V).

Fixpoint dict_lookup {V} (d : dict V) (k : str) : option V :=
  match d with
  | [] => None
  | (k', v) :: d' => if decide (k' = k) then Some v else dict_lookup d' k
  end.

(** [d[k] = v] *)
Fixpoint dict_setitem {V} (d : dict V) (k : str) (v : V) : dict V :=
  match d with
  | [] => [(k, v)]
  | (k', v') :: d' =>
      if decide (k' = k) then (k', v) :: d' else (k', v') :: dict_setitem d' k v
  end.

(** [d.get(k, dflt)]: a plain read, also on a [defaultdict]. *)
Definition dict_get {V} (d : dict V) (k : str) (dflt : V) : V :=
  default dflt (dict_lookup d k).

(** [d[k]] on a [defaultdict] whose factory makes [fresh]: a missing key is
    first stored with the factory's value.  The value read and the dictionary
    afterwards. *)
Definition defaultdict_getitem {V} (fresh : V) (d : dict V) (k : str)
  : V * dict V :=
  match dict_lookup d k with
  | Some v => (v, d)
  | None => (fresh, dict_setitem d k fresh)
  end.

(** ** Comment records: the four-key dictionaries the scan builds *)

Record Comment := mkComment {
  file : str;
  line : str;
  content : str;
  comment_text : str
}.

(** ** Exceptions, the world outside and the state of a run *)

Inductive exn_class :=
| FileNotFoundError
| NotADirectoryError
| BrokenPipeError
| UnicodeDecodeError
| UnicodeEncodeError
| CalledProcessError
| ValueError
| TypeError
| IndexError
| LangDetectException
| SystemExit.          (* the one class here that is not an Exception *)

(** A raised exception: its class and what [str(e)] gives. *)
Record exn := Exn { class_of : exn_class; str_of : str }.

Inductive result (A : Type) :=
| Ok (a : A)
| Raise (e : exn).
Arguments Ok {A} a.
Arguments Raise {A} e.

Inductive node := Dir | File.

(** What a child process leaves behind: its exit status and the text captured
    from its standard output and standard error, [None] when the bytes it
    wrote do not decode as text. *)
Record ChildExit := {
  exit_status : Z;
  captured : option (str * str)
}.

(** [subprocess.CompletedProcess] *)
Record CompletedProcess := {
  args : list str;
  returncode : Z;
  stdout : str;
  stderr : str
}.

(** Everything the script consults but does not own. *)
Record World := {
  (* the file system: what a path names, if anything *)
  fs : str -> option node;
  (* the programs on PATH: what running one with an argument vector in a
     working directory yields *)
  path_lookup : str -> option (list str -> str -> ChildExit);
  (* the text of the OSError raised for a path *)
  strerror : exn_class -> str -> str;
  (* langdetect.detect is randomised: its answer to a text may change from
     one call to the next, so it is indexed by the number of calls made
     before; it returns a language code or raises *)
  langdetect : nat -> str -> result str
}.

Definition ref := nat.

Record State := {
  (* standard output, one entry per text written to it *)
  printed : list str;
  (* the argument vector and working directory of every subprocess.run *)
  spawned : list (list str * str);
  (* how many times detect has been called *)
  detect_calls : nat;
  (* the defaultdict(list) objects alive; a reference is an index *)
  heap : list (dict (list Comment))
}.

Definition M (A : Type) := State -> result A * State.

Definition ret {A} (a : A) : M A := fun st => (Ok a, st).

Definition raise {A} (e : exn) : M A := fun st => (Raise e, st).

Definition bind {A B} (m : M A) (k : A -> M B) : M B :=
  fun st =>
    match m st with
    | (Ok a, st') => k a st'
    | (Raise e, st') => (Raise e, st')
    end.

(** [try: m  except ...: handler]; what [m] did before it raised stays done. *)
Definition try_except {A} (m : M A) (handler : exn -> M A) : M A :=
  fun st =>
    match m st with
    | (Ok a, st') => (Ok a, st')
    | (Raise e, st') => handler e st'
    end.

Declare Scope py_scope.
Delimit Scope py_scope with py.
Notation "x <- m ;; k" := (bind m (fun x => k))
  (at level 100, m at next level, right associativity) : py_scope.
Notation "m ;; k" := (bind m (fun _ => k))
  (at level 100, right associativity) : py_scope.
Open Scope py_scope.

(** [for x in xs: body x] *)
Fixpoint for_each {A} (xs : list A) (body : A -> M unit) : M unit :=
  match xs with
  | [] => ret tt
  | x :: xs' => body x ;; for_each xs' body
  end.

(** Why standard output refuses a text, and the class of what is raised. *)
Inductive write_error := Unencodable | BrokenPipe | ClosedFile.

Definition write_error_class (e : write_error) : exn_class :=
  match e with
  | Unencodable => UnicodeEncodeError
  | BrokenPipe => BrokenPipeError
  | ClosedFile => ValueError
  end.

(** Standard output: shown what it took so far and the next text, it takes
    the text, or refuses it with an error and the message of the exception. *)
Definition Stdout := list str -> str -> option (write_error * str).

(** [print(s)]: the line is written, or the stream's error is raised and
    nothing of the line is kept. *)
Definition print (o : Stdout) (s : str) : M unit :=
  fun st =>
    match o (printed st) s with
    | None =>
        (Ok tt, {| printed := printed st ++ [s]; spawned := spawned st;
                   detect_calls := detect_calls st; heap := heap st |})
    | Some (e, message) => (Raise (Exn (write_error_class e) message), st)
    end.

(** What [ArgumentParser.parse_args] does with a command line, for the parser
    [main] builds (one optional positional argument, and the help option
    argparse adds): it gives the positional argument, if any, or it leaves
    the program with a status, after writing its help to standard output
    when help was asked for (usage errors go to standard error). *)
Inductive ParseOutcome :=
| Parsed (directory : option str)
| Exits (status : nat) (message : option str).

(** argparse is a library: its parser is a parameter. *)
Definition ArgumentParser := list str -> ParseOutcome.

(** [os.path.exists(path)] *)
Definition os_path_exists (w : World) (path : str) : bool :=
  bool_decide (is_Some (fs w path)).

(** [subprocess.run(argv, capture_output=True, text=True, cwd=cwd, check=check)].
    The child changes to [cwd] and then executes the program; either step
    failing raises the matching OSError in the parent.  Only [check=True]
    turns a non-zero exit status into CalledProcessError. *)
Definition subprocess_run (w : World) (argv : list str) (cwd : str)
    (check : bool) : M CompletedProcess :=
  fun st =>
    let st' := {| printed := printed st;
                  spawned := spawned st ++ [(argv, cwd)];
                  detect_calls := detect_calls st; heap := heap st |} in
    match argv with
    | [] => (Raise (Exn IndexError (u "list index out of range")), st')
    | prog :: _ =>
        match fs w cwd with
        | None =>
            (Raise (Exn FileNotFoundError (strerror w FileNotFoundError cwd)),
             st')
        | Some File =>
            (Raise (Exn NotADirectoryError (strerror w NotADirectoryError cwd)),
             st')
        | Some Dir =>
            match path_lookup w prog with
            | None =>
                (Raise (Exn FileNotFoundError (strerror w FileNotFoundError prog)),
                 st')
            | Some program =>
                let child := program argv cwd in
                match captured child with
                | None =>
                    (Raise (Exn UnicodeDecodeError
                              (strerror w UnicodeDecodeError prog)), st')
                | Some (out, err) =>
                    if check && negb (exit_status child =? 0)%Z
                    then (Raise (Exn CalledProcessError
                                   (strerror w CalledProcessError prog)), st')
                    else (Ok {| args := argv; returncode := exit_status child;
                                stdout := out; stderr := err |}, st')
                end
            end
        end
    end.

(** [detect(text)] *)
Definition detect (w : World) (text : str) : M str :=
  fun st =>
    (langdetect w (detect_calls st) text,
     {| printed := printed st; spawned := spawned st;
        detect_calls := S (detect_calls st); heap := heap st |}).

(** [defaultdict(list)]: a new, empty object. *)
Definition new_defaultdict : M ref :=
  fun st =>
    (Ok (length (heap st)),
     {| printed := printed st; spawned := spawned st;
        detect_calls := detect_calls st; heap := heap st ++ [[]] |}).

(** Reading the object behind a reference; anything that is not one of the
    dictionaries fails as an ill-typed argument does. *)
Definition load (r : ref) : M (dict (list Comment)) :=
  fun st =>
    match heap st !! r with
    | Some d => (Ok d, st)
    | None => (Raise (Exn TypeError (u "not a dictionary")), st)
    end.

Definition store (r : ref) (d : dict (list Comment)) : M unit :=
  fun st =>
    (Ok tt, {| printed := printed st; spawned := spawned st;
               detect_calls := detect_calls st; heap := <[r := d]> (heap st) |}).

(** [d[k].append(x)] on the [defaultdict(list)] at [r]: the subscript stores
    an empty list under a missing key, and the list under [k] then grows in
    place. *)
Definition dict_append (d : dict (list Comment)) (k : str) (x : Comment)
  : dict (list Comment) :=
  let '(bucket, d') := defaultdict_getitem [] d k in
  dict_setitem d' k (bucket ++ [x]).

Definition getitem_append (r : ref) (k : str) (x : Comment) : M unit :=
  d <- load r ;;
  store r (dict_append d k x).

(** [d.get(k, [])] on the dictionary at [r]. *)
Definition get_or_empty (r : ref) (k : str) : M (list Comment) :=
  d <- load r ;;
  ret (dict_get d k []).

(** [a, b, c = parts] *)
Definition unpack3 (parts : list str) : M (str * str * str) :=
  match parts with
  | [a; b; c] => ret (a, b, c)
  | _ => raise (Exn ValueError (u "wrong number of values to unpack"))
  end.

(** ** The script *)

Definition RG_ARGV : list str :=
  [u "rg"; u "//"; u "--line-number"; u "--with-filename"].

Definition UNKNOWN : str := u "unknown".
Definition ES : str := u "es".

(** The body of the loop of [get_rust_comments] over the lines ripgrep
    printed; [ret tt] where the source says [continue] or falls through. *)
Definition scan_line (w : World) (comments_by_lang : ref) (ln : str) : M unit :=
  if bool_decide (strip ln = []) then ret tt
  else
    let parts := split COLON (Some 2) ln in
    if bool_decide (length parts < 3) then ret tt
    else
      unpacked <- unpack3 parts ;;
      let '(filename, line_num, content) := unpacked in
      match re_search COMMENT_RE content with
      | Some group1 =>
          let comment_text := strip group1 in
          if bool_decide (3 < length comment_text) then
            try_except
              (lang <- detect w comment_text ;;
               getitem_append comments_by_lang lang
                 {| file := filename; line := line_num;
                    content := strip content; comment_text := comment_text |})
              (fun _ =>
               getitem_append comments_by_lang UNKNOWN
                 {| file := filename; line := line_num;
                    content := strip content; comment_text := comment_text |})
          else ret tt
      | None => ret tt
      end.

Definition get_rust_comments (w : World) (directory : str) : M ref :=
  if negb (os_path_exists w directory)
  then raise (Exn FileNotFoundError (u "Directory not found: " ++ directory))
  else
    result <- subprocess_run w RG_ARGV directory false ;;
    let comments := split NL None (stdout result) in
    comments_by_lang <- new_defaultdict ;;
    for_each comments (scan_line w comments_by_lang) ;;
    ret comments_by_lang.

Definition print_comments_by_language (o : Stdout) (comments_by_lang : ref)
  : M unit :=
  print o ([NL] ++ u "=== Spanish Comments (es) ===") ;;
  es <- get_or_empty comments_by_lang ES ;;
  for_each es (fun comment =>
    print o ([NL] ++ u "File: " ++ file comment) ;;
    print o (u "Line: " ++ line comment) ;;
    print o (u "Content: " ++ content comment)).

(** [files_to_translate[k] += 1] on a [defaultdict(int)] *)
Definition increment (files_to_translate : dict nat) (k : str) : dict nat :=
  let '(count, d) := defaultdict_getitem 0 files_to_translate k in
  dict_setitem d k (count + 1).

(** The first loop of [generate_translation_todo].  [files_to_translate] never
    leaves the function, so it is carried as a value. *)
Definition count_files (es : list Comment) : dict nat :=
  foldl (fun files_to_translate comment =>
           increment files_to_translate (file comment)) [] es.

Definition summary_line (item : str * nat) : str :=
  [NL] ++ item.1 ++ u ": " ++ str_of_nat item.2 ++ u " Spanish comments".

Definition generate_translation_todo (o : Stdout) (comments_by_lang : ref)
  : M unit :=
  print o ([NL] ++ u "=== Files to Translate Summary ===") ;;
  es <- get_or_empty comments_by_lang ES ;;
  let files_to_translate := count_files es in
  for_each files_to_translate (fun item => print o (summary_line item)).

(** [parser.parse_args()] on the command line [argv]: the value of
    [args.directory] before its default, or SystemExit. *)
Definition parse_args (parser : ArgumentParser) (o : Stdout)
    (argv : list str) : M (option str) :=
  match parser argv with
  | Parsed directory => ret directory
  | Exits status message =>
      match message with
      | Some text => print o text
      | None => ret tt
      end ;;
      raise (Exn SystemExit (str_of_nat status))
  end.

(** [main].  The command line is parsed before the [try], so that what
    [parse_args] raises leaves [main]; [default='.'] of the source is applied
    here.  An exception raised inside an [except] clause leaves [main] too,
    and [except Exception] does not catch SystemExit. *)
Definition main (parser : ArgumentParser) (o : Stdout) (w : World)
    (argv : list str) : M unit :=
  parsed <- parse_args parser o argv ;;
  let directory := default (u ".") parsed in
  try_except
    (comments <- get_rust_comments w directory ;;
     print_comments_by_language o comments ;;
     generate_translation_todo o comments)
    (fun e =>
       match class_of e with
       | FileNotFoundError => print o (u "Error: " ++ str_of e)
       | CalledProcessError =>
           print o (u "Error: Unable to search in directory: " ++ directory)
       | SystemExit => raise e
       | _ => print o (u "Error: An unexpected error occurred: " ++ str_of e)
       end).

(** ** Vocabulary of the specification *)

(** The two-character comment delimiter occurs in [s]. *)
Definition has_delimiter (s : str) : Prop :=
  ∃ a b, s = a ++ SLASH :: SLASH :: b.

(** [s] is [pre], the first occurrence of the delimiter, and [rest]. *)
Definition first_delimiter (s pre rest : str) : Prop :=
  s = pre ++ SLASH :: SLASH :: rest ∧ ¬ has_delimiter (pre ++ [SLASH]).

(** The part of a string up to its first newline. *)
Fixpoint dot_star (s : str) : str :=
  match s with
  | c :: s' => if (c =? NL)%N then [] else c :: dot_star s'
  | [] => []
  end.

(** The text after the first two adjacent slashes of [s], without the
    whitespace it starts with and up to the next newline. *)
Fixpoint after_slashes (s : str) : option str :=
  match s with
  | [] => None
  | c :: s' =>
      match s' with
      | c' :: rest =>
          if ((c =? SLASH) && (c' =? SLASH))%N
          then Some (dot_star (lstrip rest))
          else after_slashes s'
      | [] => None
      end
  end.

(** How many times [c] occurs in [s]. *)
Definition occurrences (c : char) (s : str) : nat :=
  length (filter (λ x, x = c) s).

(** The record a line of ripgrep's output stands for, when it stands for one:
    the line has its three fields, the content holds a comment and the
    comment's text is longer than three characters. *)
Definition record_of_line (ln : str) : option Comment :=
  match split COLON (Some 2) ln with
  | [filename; line_num; content] =>
      match re_search COMMENT_RE content with
      | Some group1 =>
          if bool_decide (3 < length (strip group1))
          then Some {| file := filename; line := line_num;
                       content := strip content;
                       comment_text := strip group1 |}
          else None
      | None => None
      end
  | _ => None
  end.

(** The bucket a detector outcome sends a record to. *)
Definition bucket_of (outcome : result str) : str :=
  match outcome with
  | Ok lang => lang
  | Raise _ => UNKNOWN
  end.

(** The records of a scan in scan order, each with the key of its bucket;
    [n] counts the calls of the detector made before. *)
Fixpoint scan_log (w : World) (n : nat) (lines : list str)
  : list (str * Comment) :=
  match lines with
  | [] => []
  | ln :: lines' =>
      match record_of_line ln with
      | None => scan_log w n lines'
      | Some c =>
          (bucket_of (langdetect w n (comment_text c)), c)
          :: scan_log w (S n) lines'
      end
  end.

(** The records of a bucket that bear a file. *)
Definition records_of_file (es : list Comment) (f : str) : list Comment :=
  filter (λ c, file c = f) es.

(** The state after one record went to the dictionary at [r], leaving [d]
    there: the detector was called once. *)
Definition classified (st : State) (r : ref) (d : dict (list Comment)) : State :=
  {| printed := printed st; spawned := spawned st;
     detect_calls := S (detect_calls st); heap := <[r := d]> (heap st) |}.

(** A dictionary after the records of a log were appended, in order, each to
    its bucket. *)
Definition collect (d : dict (list Comment)) (log : list (str * Comment))
  : dict (list Comment) :=
  foldl (λ d p, dict_append d p.1 p.2) d log.

(** The state after printing [lines]. *)
Definition after_print (st : State) (lines : list str) : State :=
  {| printed := printed st ++ lines; spawned := spawned st;
     detect_calls := detect_calls st; heap := heap st |}.

(** What [print_comments_by_language] prints for one record. *)
Definition comment_lines (c : Comment) : list str :=
  [[NL] ++ u "File: " ++ file c; u "Line: " ++ line c;
   u "Content: " ++ content c].

(** ** Sample runs *)

Definition initial_state : State :=
  {| printed := []; spawned := []; detect_calls := 0; heap := [] |}.

(** What ripgrep prints in the sample project: a Spanish comment, a comment
    too short to classify, a line without fields, an English comment, a
    comment the detector gives up on, and the first line once more. *)
Definition sample_output : str :=
  u "src/a.rs:3:    // hola que tal" ++ [NL] ++
  u "src/a.rs:9:let x = 1; // ok" ++ [NL] ++
  u "Binary file matches" ++ [NL] ++
  u "src/b.rs:1:// the quick brown fox" ++ [NL] ++
  u "src/b.rs:2:/// ????" ++ [NL] ++
  u "src/a.rs:3:    // hola que tal" ++ [NL].

Definition sample_detector (n : nat) (text : str) : result str :=
  if decide (text = u "hola que tal") then Ok ES
  else if decide (text = u "/ ????")
       then Raise (Exn LangDetectException (u "No features in text."))
       else Ok (u "en").

Definition sample_fs (path : str) : option node :=
  if decide (path = u "src") then Some Dir
  else if decide (path = u "Cargo.toml") then Some File
  else None.

Definition sample_strerror (c : exn_class) (path : str) : str :=
  match c with
  | FileNotFoundError =>
      u "[Errno 2] No such file or directory: '" ++ path ++ u "'"
  | NotADirectoryError => u "[Errno 20] Not a directory: '" ++ path ++ u "'"
  | _ => path
  end.

(** A project with a directory [src] and a file [Cargo.toml], on a machine
    where ripgrep is installed and finds [sample_output]. *)
Definition sample_world : World :=
  {| fs := sample_fs;
     path_lookup prog :=
       if decide (prog = u "rg")
       then Some (λ _ _, {| exit_status := 0;
                            captured := Some (sample_output, []) |})
       else None;
     strerror := sample_strerror;
     langdetect := sample_detector |}.

(** The same project where ripgrep fails: exit status 2, nothing on its
    standard output and a message on its standard error. *)
Definition failing_search_world : World :=
  {| fs := sample_fs;
     path_lookup prog :=
       if decide (prog = u "rg")
       then Some (λ _ _,
              {| exit_status := 2;
                 captured := Some ([], u "rg: ./a.rs: Permission denied") |})
       else None;
     strerror := sample_strerror;
     langdetect := sample_detector |}.

(** The same project on a machine without ripgrep. *)
Definition no_search_tool_world : World :=
  {| fs := sample_fs;
     path_lookup _ := None;
     strerror := sample_strerror;
     langdetect := sample_detector |}.

(** The state in which the loop of [get_rust_comments] starts on a first run:
    one empty dictionary, at reference 0. *)
Definition scanning_state : State :=
  {| printed := []; spawned := [(RG_ARGV, u "src")]; detect_calls := 0;
     heap := [[]] |}.

(** A scan under way: the mapping at reference 0 already holds a record the
    detector gave up on and a Spanish one. *)
Definition busy_state : State :=
  {| printed := []; spawned := [(RG_ARGV, u "src")]; detect_calls := 2;
     heap := [[(UNKNOWN, [ {| file := u "src/z.rs"; line := u "8";
                              content := u "// 12345";
                              comment_text := u "12345" |} ]);
               (ES, [ {| file := u "src/a.rs"; line := u "3";
                         content := u "// hola que tal";
                         comment_text := u "hola que tal" |} ])]] |}.

(** The state [get_rust_comments] leaves behind in the sample project, and the
    mapping it returned there. *)
Definition scanned_state : State :=
  (get_rust_comments sample_world (u "src") initial_state).2.

Definition sample_mapping : dict (list Comment) :=
  Eval vm_compute in default [] (heap scanned_state !! 0).

(** The distinct elements of a list, in the order of their first
    occurrence. *)
Fixpoint distinct (xs : list str) : list str :=
  match xs with
  | [] => []
  | x :: xs' => x :: filter (λ y, y ≠ x) (distinct xs')
  end.

(** The files of a bucket, each once and in the order of its first record,
    with the number of records that bear it. *)
Definition summary_of (es : list Comment) : list (str * nat) :=
  (λ f, (f, length (records_of_file es f))) <$> distinct (file <$> es).

(** What a complete run prints for the Spanish records [es]: the listing,
    three lines a record, then the summary, one line a file. *)
Definition report (es : list Comment) : list str :=
  (([NL] ++ u "=== Spanish Comments (es) ===")
   :: concat (comment_lines <$> es))
  ++ ([NL] ++ u "=== Files to Translate Summary ===")
     :: ((λ item : str * nat,
            [NL] ++ item.1 ++ u ": " ++ str_of_nat item.2
            ++ u " Spanish comments")
         <$> summary_of es).

(** [d'] is [d] after [x] was appended to the bucket of [k]: that bucket is
    what it was (nothing, when the key was missing) followed by [x], it is an
    entry of [d'], and every other key reads as before. *)
Definition appended (d d' : dict (list Comment)) (k : str) (x : Comment)
  : Prop :=
  dict_get d' k [] = dict_get d k [] ++ [x] ∧
  (k, dict_get d k [] ++ [x]) ∈ d' ∧
  ∀ k', k' ≠ k → dict_lookup d' k' = dict_lookup d k'.

(** [t] is [s] without the whitespace around it: [s] is [t] between two runs
    of whitespace, and [t] neither starts nor ends with whitespace. *)
Definition trimmed (s t : str) : Prop :=
  ∃ ws1 ws2,
    s = ws1 ++ t ++ ws2 ∧
    Forall (λ x, isspace x = true) ws1 ∧
    Forall (λ x, isspace x = true) ws2 ∧
    (∀ x, head t = Some x → isspace x = false) ∧
    (∀ x, last t = Some x → isspace x = false).

(** Lines joined by newlines into one text. *)
Fixpoint join_lines (lines : list str) : str :=
  match lines with
  | [] => []
  | ln :: lines' =>
      match lines' with
      | [] => ln
      | _ :: _ => ln ++ NL :: join_lines lines'
      end
  end.

(** The number a text of decimal digits writes, if it is one. *)
Definition digit_value (c : char) : option nat :=
  if ((48 <=? c) && (c <=? 57))%N then Some (N.to_nat (c - 48)) else None.

Fixpoint decimal_value_from (acc : nat) (s : str) : option nat :=
  match s with
  | [] => Some acc
  | c :: s' =>
      match digit_value c with
      | Some d => decimal_value_from (10 * acc + d) s'
      | None => None
      end
  end.

Definition decimal_value (s : str) : option nat :=
  match s with
  | [] => None
  | _ :: _ => decimal_value_from 0 s
  end.

(** A standard output that takes whatever it is given. *)
Definition accepts_everything (o : Stdout) : Prop :=
  ∀ before text, o before text = None.

(** Standard output given [lines] one after the other: whether one was
    refused, which ends the writing, and what the stream holds then. *)
Fixpoint write_all (o : Stdout) (before lines : list str)
  : result unit * list str :=
  match lines with
  | [] => (Ok tt, before)
  | ln :: lines' =>
      match o before ln with
      | None => write_all o (before ++ [ln]) lines'
      | Some (e, message) => (Raise (Exn (write_error_class e) message), before)
      end
  end.

(** The outcome of writing [lines] from the state [st]. *)
Definition written (o : Stdout) (st : State) (lines : list str)
  : result unit * State :=
  ((write_all o (printed st) lines).1,
   {| printed := (write_all o (printed st) lines).2; spawned := spawned st;
      detect_calls := detect_calls st; heap := heap st |}).

(** A terminal that shows every character. *)
Definition terminal : Stdout := λ _ _, None.

(** A pipe in an ASCII locale: a text with any other character is refused. *)
Definition ascii_pipe : Stdout :=
  λ _ text,
    if forallb (λ c, c <? 128)%N text then None
    else Some (Unencodable, u "'ascii' codec can't encode character").

(** The parser on the command lines of the sample runs: no argument, one
    directory, a request for help, and an option the parser does not know.
    The samples use no other command line; any other counts as an error
    here. *)
Definition sample_parser : ArgumentParser :=
  λ argv,
    match argv with
    | [] => Parsed None
    | [a] =>
        if decide (a = u "-h") then Exits 0 (Some (u "usage: spanish.py [-h] [directory]"))
        else if decide (head a = Some 45%N) then Exits 2 None
        else Parsed (Some a)
    | _ => Exits 2 None
    end.

(** A file with a comment in Spanish that ASCII cannot write. *)
Definition accented_world : World :=
  {| fs := sample_fs;
     path_lookup prog :=
       if decide (prog = u "rg")
       then Some (λ _ _,
              {| exit_status := 0;
                 captured := Some (u "a.rs:1:// a" ++ [241%N] ++ u "o nuevo", []) |})
       else None;
     strerror := sample_strerror;
     langdetect := λ _ _, Ok ES |}.

(** The sample project where ripgrep prints the same lines but could not read
    one file: a warning on its standard error, and exit status 2. *)
Definition warning_world : World :=
  {| fs := sample_fs;
     path_lookup prog :=
       if decide (prog = u "rg")
       then Some (λ _ _,
              {| exit_status := 2;
                 captured := Some (sample_output,
                                   u "rg: ./c.rs: Permission denied") |})
       else None;
     strerror := sample_strerror;
     langdetect := sample_detector |}.

(** * Properties *)

(** ** Strings *)

Section strings.
Implicit Types (s a b f n : str) (sep : char).

Lemma lstrip_idemp s : lstrip (lstrip s) = lstrip s.
Proof.
  induction s as [|c s IH]; [done|]. simpl.
  destruct (isspace c) eqn:Hc; [done|]. simpl. by rewrite Hc.
Qed.

Lemma strip_lstrip s : strip (lstrip s) = strip s.
Proof. unfold strip. by rewrite lstrip_idemp. Qed.

Lemma dot_star_no_newline s : NL ∉ s → dot_star s = s.
Proof.
  induction s as [|c s IH]; [done|]. intros Hnl. simpl.
  apply not_elem_of_cons in Hnl as [Hc Hs].
  destruct (N.eqb_spec c NL); [congruence|]. by rewrite IH.
Qed.

Lemma lstrip_suffix s : lstrip s `suffix_of` s.
Proof.
  induction s as [|c s IH]; [done|]. simpl.
  destruct (isspace c); [by apply suffix_cons_r|done].
Qed.

Lemma partition_at_Some sep s a b :
  partition_at sep s = Some (a, b) ↔ s = a ++ sep :: b ∧ sep ∉ a.
Proof.
  revert a. induction s as [|c s IH]; intros a; simpl.
  - split; [done|]. intros [H _]. by destruct a.
  - destruct (N.eqb_spec c sep) as [->|Hne].
    + split.
      * intros [= <- <-]. split; [done|]. apply not_elem_of_nil.
      * intros [H Ha]. destruct a as [|x a]; simplify_eq/=; [done|].
        exfalso. apply Ha. left.
    + destruct (partition_at sep s) as [[a' b']|] eqn:Hp.
      * split.
        -- intros [= <- <-]. destruct (proj1 (IH a') eq_refl) as [-> Ha'].
           split; [done|]. by apply not_elem_of_cons.
        -- intros [H Ha]. destruct a as [|x a]; simplify_eq/=.
           apply not_elem_of_cons in Ha as [_ Ha].
           assert (Some (a', b') = Some (a, b)) as [= -> ->]; [|done].
           by apply IH.
      * split; [done|]. intros [H Ha].
        destruct a as [|x a]; simplify_eq/=.
        apply not_elem_of_cons in Ha as [_ Ha].
        assert (@None (str * str) = Some (a, b)); [|done]. by apply IH.
Qed.

Lemma partition_at_None sep s : partition_at sep s = None ↔ sep ∉ s.
Proof.
  induction s as [|c s IH]; simpl.
  - split; [intros _; apply not_elem_of_nil|done].
  - destruct (N.eqb_spec c sep) as [->|Hne].
    + split; [done|]. intros H. exfalso. apply H. left.
    + rewrite not_elem_of_cons, <- IH.
      destruct (partition_at sep s) as [[??]|]; intuition congruence.
Qed.

Lemma occurrences_cons c x s :
  occurrences c (x :: s)
  = if decide (x = c) then S (occurrences c s) else occurrences c s.
Proof. unfold occurrences. rewrite filter_cons. by case_decide. Qed.

Lemma occurrences_app c a b :
  occurrences c (a ++ b) = occurrences c a + occurrences c b.
Proof. unfold occurrences. by rewrite filter_app, length_app. Qed.

Lemma occurrences_0 c s : occurrences c s = 0 ↔ c ∉ s.
Proof.
  induction s as [|x s IH]; [by split; [intros; apply not_elem_of_nil|]|].
  rewrite occurrences_cons, not_elem_of_cons.
  case_decide; intuition congruence.
Qed.

(** A line with two separators splits in three, at the first two. *)
Lemma split_three sep f n (c : str) :
  sep ∉ f → sep ∉ n →
  split sep (Some 2) (f ++ sep :: (n ++ sep :: c)) = [f; n; c].
Proof.
  intros Hf Hn. unfold split; simpl.
  rewrite (proj2 (partition_at_Some sep _ f (n ++ (sep :: c)))) by done.
  by rewrite (proj2 (partition_at_Some sep _ n c)).
Qed.

Lemma split_three_inv sep s f n (c : str) :
  split sep (Some 2) s = [f; n; c] →
  s = f ++ sep :: (n ++ sep :: c) ∧ (sep ∉ f) ∧ (sep ∉ n).
Proof.
  unfold split; simpl.
  destruct (partition_at sep s) as [[a b]|] eqn:H1; [|done].
  destruct (partition_at sep b) as [[a' b']|] eqn:H2; [|done].
  intros [= -> -> ->].
  apply partition_at_Some in H1 as [-> ?].
  by apply partition_at_Some in H2 as [-> ?].
Qed.

(** Fewer than two separators: fewer than three parts, and conversely. *)
Lemma split_short sep s :
  length (split sep (Some 2) s) < 3 ↔ occurrences sep s < 2.
Proof.
  unfold split; simpl.
  destruct (partition_at sep s) as [[a b]|] eqn:H1.
  - apply partition_at_Some in H1 as [-> Ha].
    rewrite occurrences_app, occurrences_cons, decide_True by done.
    apply occurrences_0 in Ha. rewrite Ha.
    destruct (partition_at sep b) as [[a' b']|] eqn:H2.
    + apply partition_at_Some in H2 as [-> Ha'].
      rewrite occurrences_app, occurrences_cons, decide_True by done.
      simpl. lia.
    + apply partition_at_None, occurrences_0 in H2. rewrite H2. simpl. lia.
  - apply partition_at_None, occurrences_0 in H1. rewrite H1. simpl. lia.
Qed.

Lemma split_n_no_sep sep (k : nat) s x :
  length s ≤ k → x ∈ split_n sep k s → sep ∉ x.
Proof.
  revert s. induction k as [|k IH]; intros s Hlen; simpl.
  - destruct s; [|simpl in Hlen; lia].
    intros ->%list_elem_of_singleton. apply not_elem_of_nil.
  - destruct (partition_at sep s) as [[a b]|] eqn:Hp.
    + apply partition_at_Some in Hp as [-> Ha].
      intros [->|Hx]%elem_of_cons; [done|].
      apply (IH b); [|done]. rewrite length_app in Hlen. simpl in Hlen. lia.
    + apply partition_at_None in Hp.
      by intros ->%list_elem_of_singleton.
Qed.

(** No line of [text.split('\n')] holds a newline. *)
Lemma split_lines_no_newline text ln :
  ln ∈ split NL None text → NL ∉ ln.
Proof. unfold split; simpl. by apply split_n_no_sep. Qed.

Lemma has_delimiter_cons c s : has_delimiter s → has_delimiter (c :: s).
Proof. intros (a & b & ->). by exists (c :: a), b. Qed.

Lemma star_AnyChar {R} (k : str → option R) (r : R) s :
  (∀ s', k s' = Some r) → star AnyChar k s = Some (dot_star s, r).
Proof.
  intros Hk. induction s as [|c s IH]; simpl; [by rewrite Hk|].
  destruct (c =? NL)%N; simpl; [by rewrite Hk|]. by rewrite IH.
Qed.

Lemma star_Whitespace {R} (k : str → option R) (f : str → R) s :
  (∀ s', k s' = Some (f s')) →
  snd <$> star Whitespace k s = Some (f (lstrip s)).
Proof.
  intros Hk. induction s as [|c s IH]; simpl; [by rewrite Hk|].
  destruct (isspace c); [|by rewrite Hk].
  destruct (star Whitespace k s) as [[taken r]|]; [|done].
  by simplify_eq/=.
Qed.

Lemma match_here_COMMENT_RE s :
  match_here COMMENT_RE s
  = match s with
    | c :: c' :: rest =>
        if ((c =? SLASH) && (c' =? SLASH))%N
        then Some (dot_star (lstrip rest)) else None
    | _ => None
    end.
Proof.
  destruct s as [|c [|c' rest]]; simpl; [done|by destruct (c =? SLASH)%N|].
  destruct (c =? SLASH)%N; [|done]. destruct (c' =? SLASH)%N; [|done].
  simpl. apply (star_Whitespace _ (λ s', dot_star s')).
  intros s'. by rewrite (star_AnyChar _ []).
Qed.

(** The backtracking search with the script's pattern finds the text after the
    first two slashes. *)
Lemma re_search_COMMENT_RE s : re_search COMMENT_RE s = after_slashes s.
Proof.
  induction s as [|c s IH]; [done|].
  cbn [re_search after_slashes]. rewrite match_here_COMMENT_RE, IH.
  destruct s as [|c' rest]; [done|].
  by destruct ((c =? SLASH) && (c' =? SLASH))%N.
Qed.

Lemma re_search_None s : re_search COMMENT_RE s = None ↔ ¬ has_delimiter s.
Proof.
  rewrite re_search_COMMENT_RE. induction s as [|c s IH]; simpl.
  - split; [|done]. intros _ (a & b & H). by destruct a.
  - destruct s as [|c' rest].
    + split; [|done]. intros _ (a & b & H).
      destruct a as [|? [|??]]; simplify_eq/=.
    + destruct (N.eqb_spec c SLASH) as [->|Hc];
        [destruct (N.eqb_spec c' SLASH) as [->|Hc']|]; simpl.
      * split; [done|]. intros H. exfalso. apply H. by exists [], rest.
      * rewrite IH. split.
        -- intros H (a & b & Heq). destruct a as [|x a]; simplify_eq/=.
           apply H. by exists a, b.
        -- intros H Hd. by apply H, has_delimiter_cons.
      * rewrite IH. split.
        -- intros H (a & b & Heq). destruct a as [|x a]; simplify_eq/=.
           apply H. by exists a, b.
        -- intros H Hd. by apply H, has_delimiter_cons.
Qed.

(** The match starts at the first two slashes of the string. *)
Lemma re_search_first s pre rest :
  first_delimiter s pre rest →
  re_search COMMENT_RE s = Some (dot_star (lstrip rest)).
Proof.
  rewrite re_search_COMMENT_RE.
  intros [-> Hfirst]. induction pre as [|c pre IH]; simpl.
  - done.
  - destruct (pre ++ SLASH :: SLASH :: rest) as [|c' tl] eqn:Htl;
      [by destruct pre|].
    destruct (N.eqb_spec c SLASH) as [->|Hc];
      [destruct (N.eqb_spec c' SLASH) as [->|Hc']|]; simpl.
    + exfalso. apply Hfirst. destruct pre as [|x pre]; simplify_eq/=.
      * by exists [], [].
      * by exists [], (pre ++ [SLASH]).
    + apply IH. intros Hd. by apply Hfirst, has_delimiter_cons.
    + apply IH. intros Hd. by apply Hfirst, has_delimiter_cons.
Qed.

Lemma lstrip_nil s : lstrip s = [] ↔ Forall (λ x, isspace x = true) s.
Proof.
  induction s as [|x s IH]; simpl; [by split|].
  destruct (isspace x) eqn:Hx.
  - rewrite IH. split; [by constructor|by inversion 1].
  - split; [done|]. inversion 1; congruence.
Qed.

(** Only a line of whitespace strips to nothing. *)
Lemma strip_nil s : strip s = [] ↔ Forall (λ x, isspace x = true) s.
Proof.
  unfold strip, rstrip. split.
  - intros H. apply (f_equal reverse) in H.
    rewrite reverse_involutive, reverse_nil in H.
    apply lstrip_nil in H. rewrite Forall_reverse in H.
    destruct (lstrip s) as [|x t] eqn:Hl; [by apply lstrip_nil|].
    exfalso. apply Forall_cons_1 in H as [Hx _].
    assert (isspace x = false); [|congruence].
    clear Hx. induction s as [|y s IH]; [done|]. simpl in Hl.
    destruct (isspace y) eqn:Hy; [by apply IH|congruence].
  - intros H. by rewrite (proj2 (lstrip_nil s) H).
Qed.

Lemma split_three_not_blank sep s f n (c : str) :
  isspace sep = false → split sep (Some 2) s = [f; n; c] → strip s ≠ [].
Proof.
  intros Hsep [-> _]%split_three_inv Hs%strip_nil.
  apply Forall_app in Hs as [_ [Hs _]%Forall_cons_1]. congruence.
Qed.

Lemma split_at_most_three sep s : length (split sep (Some 2) s) ≤ 3.
Proof.
  unfold split; simpl.
  destruct (partition_at sep s) as [[a b]|]; simpl; [|lia].
  destruct (partition_at sep b) as [[a' b']|]; simpl; lia.
Qed.

End strings.

Lemma lstrip_head s :
  match lstrip s with [] => True | x :: _ => isspace x = false end.
Proof.
  induction s as [|x s IH]; [done|]. simpl.
  by destruct (isspace x) eqn:Hx.
Qed.

Lemma lstrip_snoc (a : str) x :
  isspace x = false → lstrip (a ++ [x]) = lstrip a ++ [x].
Proof.
  intros Hx. induction a as [|y a IH]; simpl; [by rewrite Hx|].
  by destruct (isspace y).
Qed.

Lemma rstrip_cons x (t : str) :
  isspace x = false → rstrip (x :: t) = x :: rstrip t.
Proof.
  intros Hx. unfold rstrip.
  rewrite reverse_cons. rewrite (lstrip_snoc _ _ Hx). by rewrite reverse_app.
Qed.







Lemma split_n_fuel sep (n m : nat) (s : str) :
  length s ≤ n → length s ≤ m → split_n sep n s = split_n sep m s.
Proof.
  revert m s. induction n as [|n IH]; intros m s Hn Hm.
  - destruct s; [|simpl in Hn; lia]. by destruct m.
  - destruct m as [|m].
    + destruct s; [done|simpl in Hm; lia].
    + simpl. destruct (partition_at sep s) as [[a b]|] eqn:Hp; [|done].
      apply partition_at_Some in Hp as [-> _].
      rewrite length_app in Hn, Hm. simpl in Hn, Hm.
      f_equal. apply IH; lia.
Qed.

Lemma split_n_single sep (n : nat) (s : str) :
  sep ∉ s → split_n sep n s = [s].
Proof.
  intros Hs%partition_at_None. destruct n; [done|]. simpl. by rewrite Hs.
Qed.

(** Splitting at every separator splits both sides of each separator. *)
Lemma split_app sep (a b : str) :
  split sep None (a ++ sep :: b) = split sep None a ++ split sep None b.
Proof.
  unfold split. simpl.
  assert (∀ (n : nat) (a : str),
            length (a ++ sep :: b) ≤ n →
            split_n sep n (a ++ sep :: b)
            = split_n sep (length a) a ++ split_n sep (length b) b) as Hgen;
    [|by apply Hgen].
  clear a. induction n as [|n IH]; intros a Hn.
  - rewrite length_app in Hn. simpl in Hn. lia.
  - rewrite length_app in Hn. simpl in Hn. simpl.
    destruct (partition_at sep a) as [[a1 a2]|] eqn:Hp.
    + apply partition_at_Some in Hp as [-> Ha1].
      rewrite <- app_assoc. simpl.
      rewrite (proj2 (partition_at_Some sep _ a1 (a2 ++ sep :: b))) by done.
      rewrite length_app in Hn |- *. simpl in Hn |- *.
      rewrite IH by (rewrite length_app; simpl; lia).
      rewrite Nat.add_succ_r. simpl.
      rewrite (proj2 (partition_at_Some sep _ a1 a2)) by done.
      simpl. do 2 f_equal. apply split_n_fuel; lia.
    + apply partition_at_None in Hp.
      rewrite (proj2 (partition_at_Some sep _ a b)) by done.
      rewrite (split_n_single _ _ a) by done. simpl. f_equal.
      apply split_n_fuel; lia.
Qed.

Lemma lstrip_decompose (s : str) :
  ∃ ws, s = ws ++ lstrip s ∧ Forall (λ x, isspace x = true) ws.
Proof.
  induction s as [|x s (ws & Hs & Hws)]; [by exists []|]. simpl.
  destruct (isspace x) eqn:Hx; [|by exists []].
  exists (x :: ws). split; [by rewrite Hs at 1|by constructor].
Qed.

Lemma rstrip_decompose (s : str) :
  ∃ ws, s = rstrip s ++ ws ∧ Forall (λ x, isspace x = true) ws.
Proof.
  destruct (lstrip_decompose (reverse s)) as (ws & Hs & Hws).
  exists (reverse ws). split; [|by apply Forall_reverse].
  unfold rstrip. rewrite <- reverse_app, <- Hs. by rewrite reverse_involutive.
Qed.

Lemma rstrip_last (s : str) x : last (rstrip s) = Some x → isspace x = false.
Proof.
  unfold rstrip. rewrite last_reverse.
  pose proof (lstrip_head (reverse s)) as Hhead.
  destruct (lstrip (reverse s)); [done|]. by intros [= <-].
Qed.

Lemma rstrip_head (t : str) x :
  (∀ y, head t = Some y → isspace y = false) →
  head (rstrip t) = Some x → isspace x = false.
Proof.
  destruct t as [|y t]; [done|]. intros Hy.
  rewrite rstrip_cons by (by apply Hy). intros [= <-]. by apply Hy.
Qed.

(** [strip] gives the text between the whitespace at both ends. *)
Lemma strip_trimmed (s : str) : trimmed s (strip s).
Proof.
  destruct (lstrip_decompose s) as (ws1 & Hs & Hws1).
  destruct (rstrip_decompose (lstrip s)) as (ws2 & Ht & Hws2).
  exists ws1, ws2. unfold strip. split_and!; [|done|done| |].
  - by rewrite <- Ht.
  - intros x. apply rstrip_head. intros y Hy.
    pose proof (lstrip_head s) as Hhead.
    destruct (lstrip s); simplify_eq/=. done.
  - apply rstrip_last.
Qed.

Lemma split_n_nonempty sep (n : nat) (s : str) : split_n sep n s ≠ [].
Proof. destruct n; simpl; [done|]. by destruct (partition_at sep s) as [[??]|]. Qed.

(** The lines of a text, joined again, are the text. *)
Lemma join_split (s : str) : join_lines (split NL None s) = s.
Proof.
  unfold split. simpl. generalize (length s). intros n. revert s.
  induction n as [|n IH]; intros s; [done|]. simpl.
  destruct (partition_at NL s) as [[a b]|] eqn:Hp; [|done].
  apply partition_at_Some in Hp as [-> _]. cbn [join_lines].
  pose proof (split_n_nonempty NL n b) as Hne. specialize (IH b).
  destruct (split_n NL n b); [done|]. by rewrite IH.
Qed.

Lemma decimal_value_digits (d : Decimal.uint) (acc : nat) :
  decimal_value_from acc (u (NilEmpty.string_of_uint d))
  = Some (Nat.of_uint_acc d acc).
Proof.
  revert acc. induction d as [|d IH|d IH|d IH|d IH|d IH|d IH|d IH|d IH|d IH|d IH];
    intros acc; [done|..];
    cbn [NilEmpty.string_of_uint u list_ascii_of_string map decimal_value_from
         Nat.of_uint_acc]; rewrite Nat.tail_mul_spec;
    (etrans; [|apply IH]); f_equal; vm_compute N.to_nat; lia.
Qed.

(** [str(n)] writes [n] in decimal. *)
Lemma decimal_value_str_of_nat (n : nat) :
  decimal_value (str_of_nat n) = Some n.
Proof.
  unfold str_of_nat, NilZero.string_of_uint.
  rewrite <- (DecimalNat.Unsigned.of_to n) at 2. unfold Nat.of_uint.
  destruct (Nat.to_uint n) as [|d|d|d|d|d|d|d|d|d|d] eqn:Hn; [done|..];
    rewrite <- decimal_value_digits; done.
Qed.

(** [str(n)] of a positive [n] does not start with the digit zero. *)
Lemma str_of_nat_head (n : nat) :
  0 < n → head (str_of_nat n) ≠ Some 48%N.
Proof.
  intros Hn. unfold str_of_nat, NilZero.string_of_uint.
  assert (Nat.to_uint n = Decimal.unorm (Nat.to_uint n)) as Hnorm.
  { rewrite <- (DecimalNat.Unsigned.of_to n) at 1.
    apply DecimalNat.Unsigned.to_of. }
  assert (Decimal.nzhead (Nat.to_uint n) ≠ Decimal.Nil) as Hnz.
  { intros Hnil. apply DecimalFacts.unorm_0 in Hnil.
    rewrite <- Hnorm in Hnil.
    pose proof (DecimalNat.Unsigned.of_to n) as Hof.
    rewrite Hnil in Hof. change (0 = n) in Hof. lia. }
  rewrite (DecimalFacts.unorm_nzhead _ Hnz) in Hnorm.
  pose proof (DecimalFacts.nzhead_nonzero (Nat.to_uint n)) as Hd0.
  rewrite <- Hnorm in Hd0, Hnz.
  destruct (Nat.to_uint n) as [|d|d|d|d|d|d|d|d|d|d]; try done.
  by destruct (Hd0 d).
Qed.

(** ** Dictionaries *)

Section dictionaries.
Context {V : Type}.
Implicit Types (d : dict V) (k : str) (v : V).

Lemma dict_lookup_setitem d k v k' :
  dict_lookup (dict_setitem d k v) k'
  = if decide (k = k') then Some v else dict_lookup d k'.
Proof.
  induction d as [|[k0 v0] d IH]; simpl.
  - by repeat case_decide.
  - repeat (case_decide; simpl; simplify_eq); try done.
    all: rewrite IH; by repeat (case_decide; simplify_eq).
Qed.

Lemma dict_lookup_None d k : dict_lookup d k = None ↔ k ∉ d.*1.
Proof.
  induction d as [|[k0 v0] d IH]; simpl.
  - split; [intros _; apply not_elem_of_nil|done].
  - rewrite not_elem_of_cons. case_decide; intuition congruence.
Qed.

Lemma dict_setitem_keys d k v :
  (dict_setitem d k v).*1 = if decide (k ∈ d.*1) then d.*1 else d.*1 ++ [k].
Proof.
  induction d as [|[k0 v0] d IH].
  - cbn [dict_setitem fmap list_fmap fst].
    rewrite decide_False; [done|apply not_elem_of_nil].
  - cbn [dict_setitem]. destruct (decide (k0 = k)) as [->|Hne].
    + rewrite fmap_cons. cbn [fst]. rewrite decide_True; [done|left].
    + rewrite !fmap_cons, IH. cbn [fst]. destruct (decide (k ∈ d.*1)).
      * rewrite decide_True; [done|by right].
      * rewrite decide_False; [done|]. rewrite not_elem_of_cons. done.
Qed.

Lemma dict_setitem_NoDup d k v : NoDup d.*1 → NoDup (dict_setitem d k v).*1.
Proof.
  intros Hd. rewrite dict_setitem_keys. case_decide; [done|].
  apply NoDup_app. split_and!; [done| |apply NoDup_singleton].
  by intros x Hx ->%list_elem_of_singleton.
Qed.

(** With one entry per key, the entries are what the lookups say. *)
Lemma dict_elem_of d k v :
  NoDup d.*1 → (k, v) ∈ d ↔ dict_lookup d k = Some v.
Proof.
  induction d as [|[k0 v0] d IH]; simpl; intros Hd.
  - split; [by intros ?%elem_of_nil|done].
  - apply NoDup_cons in Hd as [Hk0 Hd]. rewrite elem_of_cons, IH by done.
    case_decide as Hk; simplify_eq.
    + split; [intros [[= <-]|Hl]|intros [= <-]; by left]; [done|].
      apply dict_lookup_None in Hk0. congruence.
    + split; [intros [[= <- <-]|Hl]|by right]; done.
Qed.

End dictionaries.

Lemma dict_lookup_elem {V} (d : dict V) k (v : V) :
  dict_lookup d k = Some v → (k, v) ∈ d.
Proof.
  induction d as [|[k' v'] d IH]; simpl; [done|].
  case_decide; [intros [= ->]; subst; left|intros; right; by apply IH].
Qed.

Lemma dict_setitem_twice {V} (d : dict V) k (v0 v : V) :
  dict_setitem (dict_setitem d k v0) k v = dict_setitem d k v.
Proof.
  induction d as [|[k' v'] d IH]; simpl.
  - by rewrite decide_True.
  - case_decide; simpl; [by rewrite decide_True|].
    by rewrite decide_False, IH.
Qed.

Lemma dict_setitem_Forall {V} (P : V → Prop) (d : dict V) k v :
  P v → Forall (λ p, P p.2) d → Forall (λ p, P p.2) (dict_setitem d k v).
Proof.
  intros Hv. induction 1 as [|[k' v'] d Hp Hd IH]; simpl.
  - by repeat constructor.
  - case_decide; by constructor.
Qed.


Lemma dict_lookup_append d k x k' :
  dict_lookup (dict_append d k x) k'
  = if decide (k = k') then Some (dict_get d k [] ++ [x]) else dict_lookup d k'.
Proof.
  unfold dict_append, defaultdict_getitem, dict_get.
  destruct (dict_lookup d k) as [bucket|] eqn:Hk; simpl.
  - by rewrite dict_lookup_setitem.
  - rewrite !dict_lookup_setitem. by case_decide.
Qed.

Lemma dict_get_append d k x k' :
  dict_get (dict_append d k x) k' []
  = if decide (k = k') then dict_get d k [] ++ [x] else dict_get d k' [].
Proof.
  unfold dict_get at 1. rewrite dict_lookup_append. by case_decide.
Qed.

(** What [d[k].append(x)] does to the dictionary, in terms of its buckets:
    the bucket of [k] gains [x] at its end, the others stay as they were. *)
Lemma dict_append_spec d k x :
  dict_get (dict_append d k x) k [] = dict_get d k [] ++ [x] ∧
  (∀ k', k' ≠ k → dict_lookup (dict_append d k x) k' = dict_lookup d k') ∧
  (k, dict_get d k [] ++ [x]) ∈ dict_append d k x.
Proof.
  split_and!.
  - by rewrite dict_get_append, decide_True.
  - intros k' Hne. by rewrite dict_lookup_append, decide_False.
  - apply dict_lookup_elem. by rewrite dict_lookup_append, decide_True.
Qed.

Lemma dict_setitem_size (d : dict (list Comment)) k bucket x :
  dict_lookup d k = Some bucket →
  length (concat (dict_setitem d k (bucket ++ [x])).*2)
  = S (length (concat d.*2)).
Proof.
  induction d as [|[k0 v0] d IH]; [done|].
  cbn [dict_lookup dict_setitem]. case_decide.
  - intros [= ->]. rewrite !fmap_cons. cbn [snd concat].
    rewrite !length_app. simpl. lia.
  - intros H'. rewrite !fmap_cons. cbn [snd concat].
    rewrite !length_app, IH by done. lia.
Qed.

(** Every append adds one record to the dictionary. *)
Lemma dict_append_size d k x :
  length (concat (dict_append d k x).*2) = S (length (concat d.*2)).
Proof.
  unfold dict_append, defaultdict_getitem.
  destruct (dict_lookup d k) as [bucket|] eqn:Hk.
  - by apply dict_setitem_size.
  - assert (length (concat (dict_setitem d k []).*2) = length (concat d.*2))
      as <-.
    { induction d as [|[k0 v0] d IH]; [done|]. revert Hk.
      cbn [dict_setitem dict_lookup]. case_decide; [done|]. intros Hk.
      rewrite !fmap_cons. cbn [snd concat]. by rewrite !length_app, IH. }
    apply (dict_setitem_size _ _ []).
    rewrite dict_lookup_setitem. by rewrite decide_True.
Qed.

Lemma dict_append_NoDup d k x : NoDup d.*1 → NoDup (dict_append d k x).*1.
Proof.
  unfold dict_append, defaultdict_getitem. intros Hd.
  destruct (dict_lookup d k); by repeat apply dict_setitem_NoDup.
Qed.

(** A bucket after a log was collected: what it held, then the records the log
    sends to it, in the order of the log. *)
Lemma dict_get_collect log d k :
  dict_get (collect d log) k []
  = dict_get d k [] ++ (filter (λ p, p.1 = k) log).*2.
Proof.
  revert d. induction log as [|[k0 c] log IH]; intros d; simpl.
  - by rewrite app_nil_r.
  - unfold collect in *. simpl. rewrite IH, dict_get_append, filter_cons. simpl.
    case_decide; simplify_eq; simpl; [|done]. by rewrite <- app_assoc.
Qed.

Lemma collect_size log d :
  length (concat (collect d log).*2) = length (concat d.*2) + length log.
Proof.
  revert d. induction log as [|[k0 c] log IH]; intros d; simpl; [lia|].
  unfold collect in *. simpl. rewrite IH, dict_append_size. lia.
Qed.

Lemma collect_NoDup log d : NoDup d.*1 → NoDup (collect d log).*1.
Proof.
  revert d. induction log as [|[k0 c] log IH]; intros d Hd; simpl; [done|].
  apply IH. by apply dict_append_NoDup.
Qed.

Lemma dict_append_nonempty d k x :
  Forall (λ p, p.2 ≠ []) d → Forall (λ p, p.2 ≠ []) (dict_append d k x).
Proof.
  intros Hd. unfold dict_append, defaultdict_getitem.
  destruct (dict_lookup d k) as [bucket|].
  - apply (dict_setitem_Forall (λ v, v ≠ [])); [by destruct bucket|done].
  - rewrite dict_setitem_twice.
    by apply (dict_setitem_Forall (λ v, v ≠ [])).
Qed.

Lemma collect_nonempty log d :
  Forall (λ p, p.2 ≠ []) d → Forall (λ p, p.2 ≠ []) (collect d log).
Proof.
  revert d. induction log as [|[k c] log IH]; intros d Hd; [done|].
  apply IH. by apply dict_append_nonempty.
Qed.

(** ** Runs *)

Lemma after_print_nil st : after_print st [] = st.
Proof. destruct st. unfold after_print; simpl. by rewrite app_nil_r. Qed.

Lemma after_print_app st xs ys :
  after_print (after_print st xs) ys = after_print st (xs ++ ys).
Proof. unfold after_print; simpl. by rewrite app_assoc. Qed.

Lemma for_each_app {A} (xs ys : list A) (body : A → M unit) st :
  for_each (xs ++ ys) body st = (for_each xs body ;; for_each ys body) st.
Proof.
  revert st. induction xs as [|x xs IH]; intros st; [done|].
  simpl. unfold bind in *. destruct (body x st) as [[[]|e] st']; [|done].
  apply IH.
Qed.

Lemma written_nil o st : written o st [] = (Ok tt, st).
Proof. by destruct st. Qed.

Lemma print_written o s st : print o s st = written o st [s].
Proof.
  unfold print, written. simpl.
  destruct (o (printed st) s) as [[e message]|]; [|done]. by destruct st.
Qed.

(** Writing lines one after the other stops at the first refusal. *)
Lemma written_app o st (xs ys : list str) :
  written o st (xs ++ ys)
  = match written o st xs with
    | (Ok _, st') => written o st' ys
    | (Raise e, st') => (Raise e, st')
    end.
Proof.
  revert st. induction xs as [|x xs IH]; intros st.
  - by rewrite written_nil.
  - pose proof (IH {| printed := printed st ++ [x]; spawned := spawned st;
                      detect_calls := detect_calls st; heap := heap st |})
      as IH'.
    unfold written in *. simpl in *.
    by destruct (o (printed st) x) as [[e message]|].
Qed.

Lemma for_each_print {A} o (f : A → str) (xs : list A) st :
  for_each xs (λ x, print o (f x)) st = written o st (f <$> xs).
Proof.
  revert st. induction xs as [|x xs IH]; intros st.
  - by rewrite written_nil.
  - cbn [for_each]. unfold bind. rewrite print_written.
    change (f <$> x :: xs) with ([f x] ++ (f <$> xs)). rewrite written_app.
    destruct (written o st [f x]) as [[[]|e] st']; [apply IH|done].
Qed.

Lemma write_all_accepts o (before lines : list str) :
  accepts_everything o → write_all o before lines = (Ok tt, before ++ lines).
Proof.
  intros Ho. revert before. induction lines as [|ln lines IH]; intros before.
  - by rewrite app_nil_r.
  - simpl. rewrite Ho, IH. by rewrite <- app_assoc.
Qed.

(** A standard output that takes everything lets every line through. *)
Lemma written_accepts o st (lines : list str) :
  accepts_everything o → written o st lines = (Ok tt, after_print st lines).
Proof. intros Ho. unfold written. by rewrite write_all_accepts. Qed.

Lemma write_all_raises o (before lines : list str) e :
  (write_all o before lines).1 = Raise e →
  class_of e = UnicodeEncodeError ∨ class_of e = BrokenPipeError ∨
  class_of e = ValueError.
Proof.
  revert before. induction lines as [|ln lines IH]; intros before; [done|].
  simpl. destruct (o before ln) as [[[] message]|]; [..|apply IH];
    intros [= <-]; simpl; tauto.
Qed.

(** What standard output raises is an encoding error, a broken pipe or the
    error of a closed file. *)
Lemma written_raises o st (lines : list str) e st' :
  written o st lines = (Raise e, st') →
  class_of e = UnicodeEncodeError ∨ class_of e = BrokenPipeError ∨
  class_of e = ValueError.
Proof.
  unfold written. intros [= Hw _]. by apply write_all_raises in Hw.
Qed.

(** A step that skips its line leaves the rest of the loop as it was. *)
Lemma for_each_skip {A} (xs ys : list A) (x : A) (body : A → M unit) st :
  (∀ st', body x st' = (Ok tt, st')) →
  for_each (xs ++ x :: ys) body st = for_each (xs ++ ys) body st.
Proof.
  intros Hskip. rewrite !for_each_app. unfold bind.
  destruct (for_each xs body st) as [[[]|e] st']; [|done].
  simpl. unfold bind. by rewrite Hskip.
Qed.

(** One turn of the scanning loop: nothing happens unless the line stands for
    a record, and then the record goes to the bucket of the detector's
    answer. *)
Lemma scan_line_spec w r ln st d :
  heap st !! r = Some d →
  scan_line w r ln st
  = (Ok tt,
     match record_of_line ln with
     | None => st
     | Some c =>
         classified st r
           (dict_append d (bucket_of (langdetect w (detect_calls st)
                                        (comment_text c))) c)
     end).
Proof.
  intros Hd. unfold scan_line, record_of_line.
  pose proof (split_at_most_three COLON ln) as Hle.
  destruct (split COLON (Some 2) ln) as [|f [|n [|c [|??]]]] eqn:Hsplit;
    simpl in Hle; try lia; try (by case_bool_decide).
  rewrite bool_decide_false
    by (by eapply split_three_not_blank; [|apply Hsplit]).
  rewrite bool_decide_false by (simpl; lia).
  unfold bind at 1. simpl.
  destruct (re_search COMMENT_RE c) as [g|]; [|done].
  case_bool_decide; [|done].
  unfold try_except, bind, detect, getitem_append, bind, load, store, classified.
  simpl. destruct (langdetect w (detect_calls st) (strip g)); simpl;
    by rewrite Hd.
Qed.

(** A line that stands for no record is skipped, whatever the reference. *)
Lemma scan_line_skip w r ln st :
  record_of_line ln = None → scan_line w r ln st = (Ok tt, st).
Proof.
  unfold scan_line, record_of_line. intros Hrec.
  case_bool_decide; [done|]. case_bool_decide; [done|].
  pose proof (split_at_most_three COLON ln) as Hle.
  destruct (split COLON (Some 2) ln) as [|f [|n [|c [|??]]]];
    simpl in *; try lia.
  unfold bind; simpl. destruct (re_search COMMENT_RE c) as [g|]; [|done].
  by case_bool_decide.
Qed.

Lemma classified_lookup st r d d' :
  heap st !! r = Some d → heap (classified st r d') !! r = Some d'.
Proof.
  intros Hd. simpl. apply list_lookup_insert_eq. by eapply lookup_lt_Some.
Qed.

(** The whole loop: the dictionary collects the log of the scan. *)
Lemma scan_spec w r lines st d :
  heap st !! r = Some d →
  for_each lines (scan_line w r) st
  = (Ok tt,
     let log := scan_log w (detect_calls st) lines in
     {| printed := printed st; spawned := spawned st;
        detect_calls := detect_calls st + length log;
        heap := <[r := collect d log]> (heap st) |}).
Proof.
  revert st d. induction lines as [|ln lines IH]; intros st d Hd.
  - simpl. unfold ret. f_equal. destruct st; simpl in *. f_equal; [lia|].
    by rewrite list_insert_id.
  - cbn [for_each scan_log]. unfold bind.
    rewrite (scan_line_spec _ _ _ _ d) by done.
    destruct (record_of_line ln) as [c|]; [|by apply IH].
    erewrite IH by by eapply classified_lookup.
    cbn. f_equal. f_equal; [lia|]. by rewrite list_insert_insert_eq.
Qed.

Lemma scan_log_records w n lines :
  (scan_log w n lines).*2 = omap record_of_line lines.
Proof.
  revert n. induction lines as [|ln lines IH]; intros n; [done|].
  simpl. destruct (record_of_line ln); simpl; by rewrite IH.
Qed.

(** ** The scanning loop, line by line *)

(** C3: a line whose extracted comment text (the group of the pattern,
    stripped) has at most three characters changes nothing: no record goes to
    any bucket and the detector is not even asked, so the language the text
    would be given plays no part; the mapping the loop builds is the one it
    builds without the line. *)
Theorem short_comment_discarded w r (before after : list str) ln st
    (f n c g : str) :
  split COLON (Some 2) ln = [f; n; c] →
  re_search COMMENT_RE c = Some g →
  length (strip g) ≤ 3 →
  scan_line w r ln st = (Ok tt, st) ∧
  for_each (before ++ ln :: after) (scan_line w r) st
  = for_each (before ++ after) (scan_line w r) st.
Proof.
  intros Hsplit Hre Hlen.
  assert (record_of_line ln = None) as Hrec.
  { unfold record_of_line. rewrite Hsplit, Hre.
    rewrite bool_decide_false; [done|lia]. }
  split; [by apply scan_line_skip|].
  apply for_each_skip. intros st'. by apply scan_line_skip.
Qed.

Lemma short_comment_discarded_witness :
  split COLON (Some 2) (u "src/a.rs:9:let x = 1; // ok")
  = [u "src/a.rs"; u "9"; u "let x = 1; // ok"] ∧
  re_search COMMENT_RE (u "let x = 1; // ok") = Some (u "ok") ∧
  length (strip (u "ok")) ≤ 3 ∧
  scan_line sample_world 0 (u "src/a.rs:9:let x = 1; // ok") scanning_state
  = (Ok tt, scanning_state).
Proof.
  split_and!; [reflexivity|reflexivity|vm_compute; lia|].
  refine (proj1 (short_comment_discarded sample_world 0 [] []
                   (u "src/a.rs:9:let x = 1; // ok") scanning_state
                   (u "src/a.rs") (u "9") (u "let x = 1; // ok") (u "ok")
                   eq_refl eq_refl _)).
  vm_compute; lia.
Defined.

(** C5: when the detector raises on a comment text that passed the length
    filter, the loop body returns normally and the bucket [unknown] of the
    mapping gains the record at its end, the other buckets staying as they
    were; the record is the one a detector answer [lang] would have added to
    the bucket [lang]; and no run of the loop raises. *)
Theorem detection_failure_goes_to_unknown w r ln st d (f n c g : str) :
  heap st !! r = Some d →
  split COLON (Some 2) ln = [f; n; c] →
  re_search COMMENT_RE c = Some g →
  3 < length (strip g) →
  (∀ e, langdetect w (detect_calls st) (strip g) = Raise e →
        ∃ d',
          scan_line w r ln st = (Ok tt, classified st r d') ∧
          heap (classified st r d') !! r = Some d' ∧
          d' = dict_append d UNKNOWN
                 {| file := f; line := n; content := strip c;
                    comment_text := strip g |} ∧
          appended d d' UNKNOWN
            {| file := f; line := n; content := strip c;
               comment_text := strip g |}) ∧
  (∀ lang, langdetect w (detect_calls st) (strip g) = Ok lang →
           ∃ d',
             scan_line w r ln st = (Ok tt, classified st r d') ∧
             heap (classified st r d') !! r = Some d' ∧
             d' = dict_append d lang
                    {| file := f; line := n; content := strip c;
                       comment_text := strip g |} ∧
             appended d d' lang
               {| file := f; line := n; content := strip c;
                  comment_text := strip g |}) ∧
  (∀ lines, (for_each lines (scan_line w r) st).1 = Ok tt).
Proof.
  intros Hd Hsplit Hre Hlen.
  set (record := {| file := f; line := n; content := strip c;
                    comment_text := strip g |}).
  assert (record_of_line ln = Some record) as Hrec.
  { unfold record_of_line. rewrite Hsplit, Hre. by rewrite bool_decide_true. }
  split_and!.
  - intros e He. eexists. split_and!; [|by eapply classified_lookup|done|].
    + rewrite (scan_line_spec _ _ _ _ d), Hrec by done. simpl. by rewrite He.
    + destruct (dict_append_spec d UNKNOWN record) as (? & ? & ?). by split_and!.
  - intros lang He. eexists. split_and!; [|by eapply classified_lookup|done|].
    + rewrite (scan_line_spec _ _ _ _ d), Hrec by done. simpl. by rewrite He.
    + destruct (dict_append_spec d lang record) as (? & ? & ?). by split_and!.
  - intros lines. by rewrite (scan_spec _ _ _ _ d).
Qed.

Lemma detection_failure_goes_to_unknown_witness :
  heap busy_state !! 0
  = Some [(UNKNOWN, [ {| file := u "src/z.rs"; line := u "8";
                         content := u "// 12345";
                         comment_text := u "12345" |} ]);
          (ES, [ {| file := u "src/a.rs"; line := u "3";
                    content := u "// hola que tal";
                    comment_text := u "hola que tal" |} ])] ∧
  split COLON (Some 2) (u "src/b.rs:2:/// ????")
  = [u "src/b.rs"; u "2"; u "/// ????"] ∧
  re_search COMMENT_RE (u "/// ????") = Some (u "/ ????") ∧
  3 < length (strip (u "/ ????")) ∧
  langdetect sample_world 2 (strip (u "/ ????"))
  = Raise (Exn LangDetectException (u "No features in text.")) ∧
  ∃ d',
    scan_line sample_world 0 (u "src/b.rs:2:/// ????") busy_state
    = (Ok tt, classified busy_state 0 d') ∧
    heap (classified busy_state 0 d') !! 0 = Some d' ∧
    dict_get d' UNKNOWN []
    = [ {| file := u "src/z.rs"; line := u "8"; content := u "// 12345";
           comment_text := u "12345" |};
        {| file := u "src/b.rs"; line := u "2"; content := u "/// ????";
           comment_text := u "/ ????" |} ] ∧
    dict_get d' ES []
    = [ {| file := u "src/a.rs"; line := u "3";
           content := u "// hola que tal";
           comment_text := u "hola que tal" |} ].
Proof.
  split_and!; [reflexivity..|vm_compute; lia|reflexivity|].
  destruct (proj1 (detection_failure_goes_to_unknown sample_world 0
                     (u "src/b.rs:2:/// ????") busy_state _
                     (u "src/b.rs") (u "2") (u "/// ????") (u "/ ????")
                     eq_refl eq_refl eq_refl ltac:(vm_compute; lia))
                  (Exn LangDetectException (u "No features in text."))
                  eq_refl)
    as (d' & Hrun & Hheap & _ & Hbucket & _ & Hothers).
  exists d'. split_and!; [exact Hrun|exact Hheap|exact Hbucket|].
  unfold dict_get. rewrite (Hothers ES) by compute_done. reflexivity.
Defined.

(** C6: a line with fewer than two colons does not split in three; the loop
    body returns normally without touching the state, and the loop goes on
    over the following lines as if the line had not been there. *)
Theorem malformed_line_skipped w r (before after : list str) bad st :
  occurrences COLON bad < 2 →
  length (split COLON (Some 2) bad) < 3 ∧
  scan_line w r bad st = (Ok tt, st) ∧
  for_each (before ++ bad :: after) (scan_line w r) st
  = for_each (before ++ after) (scan_line w r) st.
Proof.
  intros Hshort%split_short.
  assert (record_of_line bad = None) as Hrec.
  { unfold record_of_line.
    by destruct (split COLON (Some 2) bad) as [|? [|? [|? [|??]]]];
      simpl in Hshort; try lia. }
  split_and!; [done|by apply scan_line_skip|].
  apply for_each_skip. intros st'. by apply scan_line_skip.
Qed.

Lemma malformed_line_skipped_witness :
  occurrences COLON (u "Binary file matches") < 2 ∧
  for_each ([u "src/a.rs:3:    // hola que tal"]
            ++ u "Binary file matches" :: [u "src/b.rs:1:// the quick brown fox"])
           (scan_line sample_world 0) scanning_state
  = for_each ([u "src/a.rs:3:    // hola que tal"]
              ++ [u "src/b.rs:1:// the quick brown fox"])
             (scan_line sample_world 0) scanning_state.
Proof.
  split; [vm_compute; lia|].
  refine (proj2 (proj2 (malformed_line_skipped sample_world 0
                          [u "src/a.rs:3:    // hola que tal"]
                          [u "src/b.rs:1:// the quick brown fox"]
                          (u "Binary file matches") scanning_state _))).
  vm_compute; lia.
Defined.

(** C7: a line [f:n:c], where [f] and [n] hold no colon, splits into exactly
    [f], [n] and [c], whatever colons [c] holds; and if the first two slashes
    of [c] are followed by [rest], the comment text is [rest] without the
    whitespace around it, which is what [strip] gives.  A text longer than
    three characters is stored, with [f], [n] and [c] without the whitespace
    around it, at the end of the bucket of the detector's answer. *)
Theorem well_formed_line_parsed w r st d (f n c before rest : str) :
  heap st !! r = Some d →
  COLON ∉ f → COLON ∉ n → NL ∉ c →
  first_delimiter c before rest →
  split COLON (Some 2) (f ++ COLON :: (n ++ COLON :: c)) = [f; n; c] ∧
  ∃ text body,
    trimmed rest text ∧ text = strip rest ∧
    trimmed c body ∧ body = strip c ∧
    (∃ g, re_search COMMENT_RE c = Some g ∧ strip g = text) ∧
    (3 < length text →
     record_of_line (f ++ COLON :: (n ++ COLON :: c))
     = Some {| file := f; line := n; content := body; comment_text := text |} ∧
     ∃ d',
       scan_line w r (f ++ COLON :: (n ++ COLON :: c)) st
       = (Ok tt, classified st r d') ∧
       heap (classified st r d') !! r = Some d' ∧
       d' = dict_append d (bucket_of (langdetect w (detect_calls st) text))
              {| file := f; line := n; content := body;
                 comment_text := text |} ∧
       appended d d' (bucket_of (langdetect w (detect_calls st) text))
         {| file := f; line := n; content := body; comment_text := text |}).
Proof.
  intros Hd Hf Hn Hc Hfirst. set (ln := f ++ COLON :: (n ++ COLON :: c)).
  assert (split COLON (Some 2) ln = [f; n; c]) as Hsplit
    by by apply split_three.
  assert (re_search COMMENT_RE c = Some (lstrip rest)) as Hre.
  { rewrite (re_search_first c before rest) by done. f_equal.
    apply dot_star_no_newline. intros Hnl. apply Hc.
    destruct Hfirst as [-> _].
    rewrite elem_of_app, !elem_of_cons. right. right. right.
    by eapply elem_of_suffix; [|apply lstrip_suffix]. }
  split; [done|]. exists (strip rest), (strip c).
  split_and!; [apply strip_trimmed|done|apply strip_trimmed|done| |].
  { exists (lstrip rest). by rewrite strip_lstrip. }
  intros Hlen.
  assert (record_of_line ln
          = Some {| file := f; line := n; content := strip c;
                    comment_text := strip rest |}) as Hrec.
  { unfold record_of_line. rewrite Hsplit, Hre, strip_lstrip.
    by rewrite bool_decide_true. }
  split; [done|]. eexists.
  split_and!; [|by eapply classified_lookup|done|].
  - by rewrite (scan_line_spec _ _ _ _ d), Hrec.
  - destruct (dict_append_spec d
                (bucket_of (langdetect w (detect_calls st) (strip rest)))
                {| file := f; line := n; content := strip c;
                   comment_text := strip rest |}) as (? & ? & ?).
    by split_and!.
Qed.

Lemma well_formed_line_parsed_witness :
  heap busy_state !! 0
  = Some [(UNKNOWN, [ {| file := u "src/z.rs"; line := u "8";
                         content := u "// 12345";
                         comment_text := u "12345" |} ]);
          (ES, [ {| file := u "src/a.rs"; line := u "3";
                    content := u "// hola que tal";
                    comment_text := u "hola que tal" |} ])] ∧
  (COLON ∉ u "src/a.rs") ∧ (COLON ∉ u "9") ∧
  (NL ∉ u "  let s = x; //  uno: dos  ") ∧
  first_delimiter (u "  let s = x; //  uno: dos  ")
                  (u "  let s = x; ") (u "  uno: dos  ") ∧
  split COLON (Some 2) (u "src/a.rs:9:  let s = x; //  uno: dos  ")
  = [u "src/a.rs"; u "9"; u "  let s = x; //  uno: dos  "] ∧
  trimmed (u "  uno: dos  ") (u "uno: dos") ∧
  trimmed (u "  let s = x; //  uno: dos  ") (u "let s = x; //  uno: dos") ∧
  record_of_line (u "src/a.rs:9:  let s = x; //  uno: dos  ")
  = Some {| file := u "src/a.rs"; line := u "9";
            content := u "let s = x; //  uno: dos";
            comment_text := u "uno: dos" |} ∧
  ∃ d',
    scan_line sample_world 0 (u "src/a.rs:9:  let s = x; //  uno: dos  ")
      busy_state
    = (Ok tt, classified busy_state 0 d') ∧
    dict_get d' (u "en") []
    = [ {| file := u "src/a.rs"; line := u "9";
           content := u "let s = x; //  uno: dos";
           comment_text := u "uno: dos" |} ].
Proof.
  assert (first_delimiter (u "  let s = x; //  uno: dos  ")
            (u "  let s = x; ") (u "  uno: dos  ")) as Hfirst.
  { split; [reflexivity|]. apply re_search_None. reflexivity. }
  destruct (well_formed_line_parsed sample_world 0 busy_state _
              (u "src/a.rs") (u "9") (u "  let s = x; //  uno: dos  ")
              (u "  let s = x; ") (u "  uno: dos  ")
              eq_refl ltac:(compute_done) ltac:(compute_done)
              ltac:(compute_done) Hfirst)
    as (Hsplit & text & body & Htext & -> & Hbody & -> & _ & Hstored).
  destruct (Hstored ltac:(vm_compute; lia))
    as (Hrec & d' & Hrun & _ & _ & Hbucket & _).
  split_and!; [reflexivity|compute_done|compute_done|compute_done|exact Hfirst
              |exact Hsplit|exact Htext|exact Hbody|exact Hrec|].
  exists d'. split; [exact Hrun|exact Hbucket].
Defined.

(** C8: a line whose content part holds no two adjacent slashes leaves the
    state as it was, so no bucket, [unknown] included, gets a record from it;
    the mapping the loop builds is the one it builds without the line. *)
Theorem line_without_delimiter_ignored w r (before after : list str) ln st
    (f n c : str) :
  split COLON (Some 2) ln = [f; n; c] →
  ¬ has_delimiter c →
  scan_line w r ln st = (Ok tt, st) ∧
  for_each (before ++ ln :: after) (scan_line w r) st
  = for_each (before ++ after) (scan_line w r) st.
Proof.
  intros Hsplit Hnone%re_search_None.
  assert (record_of_line ln = None) as Hrec.
  { unfold record_of_line. by rewrite Hsplit, Hnone. }
  split; [by apply scan_line_skip|].
  apply for_each_skip. intros st'. by apply scan_line_skip.
Qed.

Lemma line_without_delimiter_ignored_witness :
  split COLON (Some 2) (u "src/a.rs:4:let ratio = a / b;")
  = [u "src/a.rs"; u "4"; u "let ratio = a / b;"] ∧
  ¬ has_delimiter (u "let ratio = a / b;") ∧
  scan_line sample_world 0 (u "src/a.rs:4:let ratio = a / b;") scanning_state
  = (Ok tt, scanning_state).
Proof.
  assert (¬ has_delimiter (u "let ratio = a / b;")) as Hnone.
  { apply re_search_None. reflexivity. }
  split_and!; [reflexivity|exact Hnone|].
  exact (proj1 (line_without_delimiter_ignored sample_world 0 [] []
                  (u "src/a.rs:4:let ratio = a / b;") scanning_state
                  (u "src/a.rs") (u "4") (u "let ratio = a / b;")
                  eq_refl Hnone)).
Defined.

(** ** The mapping [get_rust_comments] returns *)

(** A run of [get_rust_comments] over an existing directory, with ripgrep
    installed and its output decoded: it returns a new dictionary that
    collected the log of the scan of ripgrep's lines. *)
Lemma get_rust_comments_spec w directory st program out err :
  fs w directory = Some Dir →
  path_lookup w (u "rg") = Some program →
  captured (program RG_ARGV directory) = Some (out, err) →
  get_rust_comments w directory st
  = (Ok (length (heap st)),
     let log := scan_log w (detect_calls st) (split NL None out) in
     {| printed := printed st;
        spawned := spawned st ++ [(RG_ARGV, directory)];
        detect_calls := detect_calls st + length log;
        heap := heap st ++ [collect [] log] |}).
Proof.
  intros Hdir Hrg Hout. unfold get_rust_comments, os_path_exists.
  rewrite Hdir, bool_decide_true by eauto. simpl.
  unfold bind at 1, subprocess_run. simpl. rewrite Hdir.
  change (path_lookup w [114%N; 103%N]) with (path_lookup w (u "rg")).
  rewrite Hrg. fold RG_ARGV. rewrite Hout. simpl.
  unfold bind at 1, new_defaultdict. simpl. unfold bind at 1.
  erewrite scan_spec by (simpl; by apply list_lookup_middle).
  simpl. unfold ret. do 3 f_equal.
  rewrite <- (Nat.add_0_r (length (heap st))) at 1. by rewrite insert_app_r.
Qed.

(** C9: ripgrep's output is a sequence of lines without newline, which
    joined by newlines give the output back.  The mapping [get_rust_comments]
    returns holds, under every key, the records the scan of these lines sent
    to that key, in the order of the lines; every bucket stored in it is such
    a sequence; and it holds one record for every line that stands for a
    record, so that a line printed twice gives two records. *)
Theorem buckets_follow_scan_order w directory st program out err :
  fs w directory = Some Dir →
  path_lookup w (u "rg") = Some program →
  captured (program RG_ARGV directory) = Some (out, err) →
  ∃ r st' d lines log,
    get_rust_comments w directory st = (Ok r, st') ∧
    heap st' !! r = Some d ∧
    lines = split NL None out ∧
    join_lines lines = out ∧
    Forall (λ ln, NL ∉ ln) lines ∧
    log = scan_log w (detect_calls st) lines ∧
    log.*2 = omap record_of_line lines ∧
    (∀ k, dict_get d k [] = (filter (λ p, p.1 = k) log).*2) ∧
    (∀ k bucket, (k, bucket) ∈ d →
                 bucket ≠ [] ∧ bucket = (filter (λ p, p.1 = k) log).*2) ∧
    (∀ k c, (k, c) ∈ log → ∃ bucket, (k, bucket) ∈ d ∧ c ∈ bucket) ∧
    NoDup d.*1 ∧
    length (concat d.*2) = length (omap record_of_line lines).
Proof.
  intros Hdir Hrg Hout. eexists _, _, _, _, _. split_and!.
  - by eapply get_rust_comments_spec.
  - simpl. by apply list_lookup_middle.
  - done.
  - apply join_split.
  - apply Forall_forall. intros ln. apply split_lines_no_newline.
  - done.
  - apply scan_log_records.
  - intros k. by rewrite dict_get_collect.
  - intros k bucket Hin. split.
    + eapply (Forall_forall (λ p, p.2 ≠ [])) in Hin; [done|].
      apply collect_nonempty. constructor.
    + apply dict_elem_of in Hin; [|apply collect_NoDup; constructor].
      pose proof (dict_get_collect
                    (scan_log w (detect_calls st) (split NL None out)) [] k)
        as Hget.
      unfold dict_get in Hget. rewrite Hin in Hget. done.
  - intros k c Hin.
    set (log := scan_log w (detect_calls st) (split NL None out)) in *.
    assert (c ∈ dict_get (collect [] log) k []) as Hc.
    { rewrite dict_get_collect. simpl. apply list_elem_of_fmap.
      exists (k, c). split; [done|]. by apply list_elem_of_filter. }
    unfold dict_get in Hc.
    destruct (dict_lookup (collect [] log) k) as [bucket|] eqn:Hl;
      [|by apply elem_of_nil in Hc].
    exists bucket. split; [by apply dict_lookup_elem|done].
  - apply collect_NoDup. constructor.
  - rewrite collect_size, <- (scan_log_records w (detect_calls st)).
    by rewrite length_fmap.
Qed.

Lemma buckets_follow_scan_order_witness :
  fs sample_world (u "src") = Some Dir ∧
  path_lookup sample_world (u "rg")
  = Some (λ _ _, {| exit_status := 0;
                    captured := Some (sample_output, []) |}) ∧
  ∃ r st' d,
    get_rust_comments sample_world (u "src") initial_state = (Ok r, st') ∧
    heap st' !! r = Some d ∧
    split NL None sample_output
    = [ u "src/a.rs:3:    // hola que tal";
        u "src/a.rs:9:let x = 1; // ok";
        u "Binary file matches";
        u "src/b.rs:1:// the quick brown fox";
        u "src/b.rs:2:/// ????";
        u "src/a.rs:3:    // hola que tal";
        [] ] ∧
    dict_get d ES []
    = [ {| file := u "src/a.rs"; line := u "3"; content := u "// hola que tal";
           comment_text := u "hola que tal" |};
        {| file := u "src/a.rs"; line := u "3"; content := u "// hola que tal";
           comment_text := u "hola que tal" |} ] ∧
    dict_get d (u "en") []
    = [ {| file := u "src/b.rs"; line := u "1";
           content := u "// the quick brown fox";
           comment_text := u "the quick brown fox" |} ] ∧
    dict_get d UNKNOWN []
    = [ {| file := u "src/b.rs"; line := u "2"; content := u "/// ????";
           comment_text := u "/ ????" |} ] ∧
    length (concat d.*2) = 4.
Proof.
  split_and!; [reflexivity|reflexivity|].
  destruct (buckets_follow_scan_order sample_world (u "src") initial_state
              _ sample_output [] eq_refl eq_refl eq_refl)
    as (r & st' & d & lines & log & Hrun & Hd & -> & _ & _ & -> & _ & Hbuckets
        & _ & _ & _ & Hsize).
  exists r, st', d.
  split_and!; [exact Hrun|exact Hd|reflexivity|..].
  - rewrite Hbuckets. vm_compute. reflexivity.
  - rewrite Hbuckets. vm_compute. reflexivity.
  - rewrite Hbuckets. vm_compute. reflexivity.
  - rewrite Hsize. vm_compute. reflexivity.
Defined.

(** The Spanish comment printed twice by ripgrep is twice in its bucket. *)
Example duplicate_lines_give_two_records :
  ∃ st', get_rust_comments sample_world (u "src") initial_state = (Ok 0, st') ∧
    ∃ d, heap st' !! 0 = Some d ∧
    dict_get d ES []
    = [ {| file := u "src/a.rs"; line := u "3"; content := u "// hola que tal";
           comment_text := u "hola que tal" |};
        {| file := u "src/a.rs"; line := u "3"; content := u "// hola que tal";
           comment_text := u "hola que tal" |} ].
Proof.
  eexists. split; [vm_compute; reflexivity|].
  eexists. split; vm_compute; reflexivity.
Qed.

(** ** The output functions *)

Lemma increment_lookup (d : dict nat) k k' :
  dict_lookup (increment d k) k'
  = if decide (k = k') then Some (dict_get d k 0 + 1) else dict_lookup d k'.
Proof.
  unfold increment, defaultdict_getitem, dict_get.
  destruct (dict_lookup d k) eqn:Hk; simpl.
  - by rewrite dict_lookup_setitem.
  - rewrite !dict_lookup_setitem. by case_decide.
Qed.

Lemma increment_keys (d : dict nat) k x :
  x ∈ (increment d k).*1 ↔ x = k ∨ x ∈ d.*1.
Proof.
  unfold increment, defaultdict_getitem.
  destruct (dict_lookup d k) eqn:Hk.
  - assert (k ∈ d.*1) as Hin.
    { apply dec_stable. intros Hn%dict_lookup_None. congruence. }
    rewrite dict_setitem_keys, decide_True by done.
    split; [by right|]. by intros [->|?].
  - apply dict_lookup_None in Hk.
    rewrite !dict_setitem_keys, (decide_False _ _ Hk).
    rewrite decide_True by (apply elem_of_app; right; left).
    rewrite elem_of_app, list_elem_of_singleton. tauto.
Qed.

Lemma increment_NoDup (d : dict nat) k : NoDup d.*1 → NoDup (increment d k).*1.
Proof.
  unfold increment, defaultdict_getitem. intros Hd.
  destruct (dict_lookup d k); by repeat apply dict_setitem_NoDup.
Qed.

Section counting.
Implicit Types (es : list Comment) (acc : dict nat) (f : str).

Let tally acc es :=
  foldl (λ files_to_translate comment,
           increment files_to_translate (file comment)) acc es.

Lemma tally_get es acc f :
  dict_get (tally acc es) f 0
  = dict_get acc f 0 + length (records_of_file es f).
Proof.
  revert acc. induction es as [|c es IH]; intros acc; simpl; [lia|].
  rewrite IH. unfold records_of_file. rewrite filter_cons.
  unfold dict_get at 1. rewrite increment_lookup.
  case_decide as Hf; simpl; [|done]. rewrite Hf. lia.
Qed.

Lemma tally_keys es acc f :
  f ∈ (tally acc es).*1 ↔ f ∈ acc.*1 ∨ f ∈ file <$> es.
Proof.
  revert acc. induction es as [|c es IH]; intros acc.
  - simpl. rewrite elem_of_nil. tauto.
  - change (tally acc (c :: es)) with (tally (increment acc (file c)) es).
    rewrite IH, increment_keys, fmap_cons, elem_of_cons. tauto.
Qed.

Lemma tally_NoDup es acc : NoDup acc.*1 → NoDup (tally acc es).*1.
Proof.
  revert acc. induction es as [|c es IH]; intros acc Hacc; simpl; [done|].
  by apply IH, increment_NoDup.
Qed.

(** The dictionary [files_to_translate] holds, once, each file of the
    Spanish records with the number of records that bear it. *)
Lemma count_files_spec es f (n : nat) :
  (f, n) ∈ count_files es ↔
  n = length (records_of_file es f) ∧ f ∈ file <$> es.
Proof.
  unfold count_files. fold (tally [] es).
  rewrite dict_elem_of by (apply tally_NoDup; constructor).
  pose proof (tally_get es [] f) as Hget.
  pose proof (tally_keys es [] f) as Hkeys.
  unfold dict_get in Hget. simpl in Hget, Hkeys. rewrite elem_of_nil in Hkeys.
  destruct (dict_lookup (tally [] es) f) as [m|] eqn:Hl; simpl in Hget.
  - split; [intros [= <-]|intros [-> _]; by rewrite Hget].
    split; [done|]. destruct Hkeys as [[[]|Hf] _]; [|done].
    apply dec_stable. intros Hn%dict_lookup_None. congruence.
  - split; [done|]. intros [_ Hf]. apply dict_lookup_None in Hl.
    exfalso. apply Hl, Hkeys. by right.
Qed.

Lemma count_files_NoDup es : NoDup (count_files es).*1.
Proof. apply tally_NoDup. constructor. Qed.

End counting.

Lemma file_in_bucket (es : list Comment) f :
  f ∈ file <$> es ↔ 0 < length (records_of_file es f).
Proof.
  unfold records_of_file. induction es as [|c es IH].
  - simpl. rewrite elem_of_nil. lia.
  - rewrite fmap_cons, elem_of_cons, filter_cons, IH.
    case_decide; simpl.
    + split; [lia|]. intros _. by left.
    + split; [|by right]. by intros [->|?].
Qed.

Lemma dict_setitem_sum (d : dict nat) k (v : nat) :
  sum_list (dict_setitem d k v).*2 + dict_get d k 0 = sum_list d.*2 + v.
Proof.
  unfold dict_get. induction d as [|[k' v'] d IH]; csimpl; [lia|].
  case_decide; csimpl; lia.
Qed.

Lemma increment_sum (d : dict nat) k :
  sum_list (increment d k).*2 = S (sum_list d.*2).
Proof.
  unfold increment, defaultdict_getitem.
  pose proof (dict_setitem_sum d k) as Hsum. unfold dict_get in Hsum.
  destruct (dict_lookup d k) as [count|]; simpl in Hsum.
  - specialize (Hsum (count + 1)). lia.
  - rewrite dict_setitem_twice. specialize (Hsum (0 + 1)). lia.
Qed.

Lemma count_files_sum (es : list Comment) :
  sum_list (count_files es).*2 = length es.
Proof.
  unfold count_files.
  assert (∀ acc : dict nat,
            sum_list (foldl (λ d c, increment d (file c)) acc es).*2
            = sum_list acc.*2 + length es) as ->; [|done].
  induction es as [|c es IH]; intros acc; simpl; [lia|].
  rewrite IH, increment_sum. lia.
Qed.

Lemma increment_keys_eq (d : dict nat) k :
  (increment d k).*1 = if decide (k ∈ d.*1) then d.*1 else d.*1 ++ [k].
Proof.
  unfold increment, defaultdict_getitem.
  destruct (dict_lookup d k) eqn:Hk.
  - assert (k ∈ d.*1) as Hin.
    { apply dec_stable. intros Hn%dict_lookup_None. congruence. }
    by rewrite dict_setitem_keys.
  - apply dict_lookup_None in Hk.
    by rewrite dict_setitem_twice, dict_setitem_keys.
Qed.

Lemma filter_all {A} (P : A → Prop) `{!∀ x, Decision (P x)} (l : list A) :
  (∀ x, P x) → filter P l = l.
Proof.
  intros HP. induction l as [|x l IH]; [done|].
  by rewrite filter_cons_True, IH.
Qed.

Lemma count_files_keys (es : list Comment) :
  (count_files es).*1 = distinct (file <$> es).
Proof.
  unfold count_files.
  assert (∀ acc : dict nat,
            (foldl (λ d c, increment d (file c)) acc es).*1
            = acc.*1 ++ filter (λ f, f ∉ acc.*1) (distinct (file <$> es)))
    as ->.
  2:{ simpl. apply filter_all. intros f. apply not_elem_of_nil. }
  induction es as [|c es IH]; intros acc.
  - simpl. by rewrite app_nil_r.
  - cbn [foldl fmap list_fmap distinct]. rewrite IH, increment_keys_eq.
    rewrite filter_cons, !list_filter_filter.
    destruct (decide (file c ∈ acc.*1)) as [Hin|Hin].
    + rewrite decide_False by (by intros ?). f_equal.
      apply list_filter_iff. intros f. split; [|by intros [? ?]].
      intros Hf. split; [done|]. by intros ->.
    + rewrite decide_True by done. rewrite <- app_assoc. simpl. do 2 f_equal.
      apply list_filter_iff. intros f.
      rewrite not_elem_of_app, list_elem_of_singleton. tauto.
Qed.

Lemma pairs_of_keys (l : list (str * nat)) (g : str → nat) :
  (∀ f n, (f, n) ∈ l → n = g f) → l = (λ f, (f, g f)) <$> l.*1.
Proof.
  induction l as [|[f n] l IH]; intros Hl; [done|].
  rewrite !fmap_cons. simpl. rewrite <- IH.
  - f_equal. f_equal. apply Hl. left.
  - intros f' n' Hin. apply Hl. by right.
Qed.

(** The dictionary [files_to_translate] after the counting loop: the files
    of the records, in the order of their first record, each with the number
    of records that bear it. *)
Lemma count_files_summary (es : list Comment) : count_files es = summary_of es.
Proof.
  unfold summary_of. rewrite <- count_files_keys.
  apply pairs_of_keys. intros f n Hin. by apply count_files_spec in Hin as [-> _].
Qed.

Lemma print_records_spec o (es : list Comment) st :
  for_each es (λ comment,
    print o ([NL] ++ u "File: " ++ file comment) ;;
    print o (u "Line: " ++ line comment) ;;
    print o (u "Content: " ++ content comment)) st
  = written o st (concat (comment_lines <$> es)).
Proof.
  revert st. induction es as [|c es IH]; intros st.
  - by rewrite written_nil.
  - cbn [for_each]. rewrite fmap_cons. cbn [concat]. rewrite written_app.
    unfold bind at 1.
    assert ((print o ([NL] ++ u "File: " ++ file c) ;;
             print o (u "Line: " ++ line c) ;;
             print o (u "Content: " ++ content c)) st
            = written o st (comment_lines c)) as ->.
    { unfold comment_lines.
      change [[NL] ++ u "File: " ++ file c; u "Line: " ++ line c;
              u "Content: " ++ content c]
        with ([[NL] ++ u "File: " ++ file c]
              ++ [u "Line: " ++ line c] ++ [u "Content: " ++ content c]).
      rewrite written_app. unfold bind. rewrite print_written.
      destruct (written o st [[NL] ++ u "File: " ++ file c])
        as [[[]|e] st1]; [|done].
      rewrite written_app, print_written.
      destruct (written o st1 [u "Line: " ++ line c]) as [[[]|e] st2]; [|done].
      by rewrite print_written. }
    destruct (written o st (comment_lines c)) as [[[]|e] st']; [apply IH|done].
Qed.

Lemma written_heap o st (lines : list str) :
  heap (written o st lines).2 = heap st.
Proof. done. Qed.

(** What [print_comments_by_language] writes: its header, then three lines
    for each record of the Spanish bucket. *)
Lemma print_comments_by_language_spec o r st d :
  heap st !! r = Some d →
  print_comments_by_language o r st
  = written o st
      (([NL] ++ u "=== Spanish Comments (es) ===")
       :: concat (comment_lines <$> dict_get d ES [])).
Proof.
  intros Hd. unfold print_comments_by_language, get_or_empty.
  change (?h :: concat ?t) with ([h] ++ concat t). rewrite written_app.
  unfold bind at 1. rewrite print_written.
  pose proof (written_heap o st [[NL] ++ u "=== Spanish Comments (es) ==="])
    as Hheap.
  destruct (written o st [[NL] ++ u "=== Spanish Comments (es) ==="])
    as [[[]|e] st1]; [|done].
  simpl in Hheap. unfold bind at 1 2, load at 1. rewrite Hheap, Hd.
  unfold ret at 1. apply print_records_spec.
Qed.

(** What [generate_translation_todo] writes: its header, then one line for
    each entry of [files_to_translate]. *)
Lemma generate_translation_todo_spec o r st d :
  heap st !! r = Some d →
  generate_translation_todo o r st
  = written o st
      (([NL] ++ u "=== Files to Translate Summary ===")
       :: (summary_line <$> count_files (dict_get d ES []))).
Proof.
  intros Hd. unfold generate_translation_todo, get_or_empty.
  change (?h :: (?f <$> ?t)) with ([h] ++ (f <$> t)). rewrite written_app.
  unfold bind at 1. rewrite print_written.
  pose proof (written_heap o st [[NL] ++ u "=== Files to Translate Summary ==="])
    as Hheap.
  destruct (written o st [[NL] ++ u "=== Files to Translate Summary ==="])
    as [[[]|e] st1]; [|done].
  simpl in Hheap. unfold bind at 1 2, load at 1. rewrite Hheap, Hd.
  unfold ret at 1. apply for_each_print.
Qed.

(** C4: on a standard output that takes every line, the summary prints its
    header and then one line per file, [file: count Spanish comments] with
    the count in decimal and without a leading zero; each file of the
    Spanish bucket is listed once, with the number of records of the bucket
    that bear it, and no other file is listed. *)
Theorem summary_counts_by_file o r st d :
  heap st !! r = Some d →
  accepts_everything o →
  ∃ items : list (str * nat),
    generate_translation_todo o r st
    = (Ok tt,
       after_print st
         (([NL] ++ u "=== Files to Translate Summary ===")
          :: ((λ item : str * nat,
                 [NL] ++ item.1 ++ u ": " ++ str_of_nat item.2
                 ++ u " Spanish comments") <$> items))) ∧
    NoDup items.*1 ∧
    (∀ f n, (f, n) ∈ items →
            n = length (records_of_file (dict_get d ES []) f) ∧ 0 < n ∧
            decimal_value (str_of_nat n) = Some n ∧
            head (str_of_nat n) ≠ Some 48%N) ∧
    (∀ f, f ∈ items.*1 ↔ f ∈ file <$> dict_get d ES []).
Proof.
  intros Hd Ho. exists (count_files (dict_get d ES [])). split_and!.
  - rewrite (generate_translation_todo_spec o r st d) by done.
    by apply written_accepts.
  - apply count_files_NoDup.
  - intros f n [-> Hf]%count_files_spec.
    split_and!; [done|by apply file_in_bucket|apply decimal_value_str_of_nat|].
    by apply str_of_nat_head, file_in_bucket.
  - intros f. rewrite list_elem_of_fmap. split.
    + intros ([f' n] & -> & [_ Hf]%count_files_spec). done.
    + intros Hf. exists (f, length (records_of_file (dict_get d ES []) f)).
      split; [done|]. by apply count_files_spec.
Qed.

Lemma summary_counts_by_file_witness :
  heap scanned_state !! 0 = Some sample_mapping ∧
  accepts_everything terminal ∧
  printed (generate_translation_todo terminal 0 scanned_state).2
  = [ [NL] ++ u "=== Files to Translate Summary ===";
      [NL] ++ u "src/a.rs: 2 Spanish comments" ] ∧
  ∃ items : list (str * nat),
    generate_translation_todo terminal 0 scanned_state
    = (Ok tt,
       after_print scanned_state
         (([NL] ++ u "=== Files to Translate Summary ===")
          :: ((λ item : str * nat,
                 [NL] ++ item.1 ++ u ": " ++ str_of_nat item.2
                 ++ u " Spanish comments") <$> items))) ∧
    NoDup items.*1 ∧
    (∀ f n, (f, n) ∈ items →
            n = length (records_of_file (dict_get sample_mapping ES []) f)
            ∧ 0 < n ∧ decimal_value (str_of_nat n) = Some n
            ∧ head (str_of_nat n) ≠ Some 48%N) ∧
    (∀ f, f ∈ items.*1 ↔ f ∈ file <$> dict_get sample_mapping ES []).
Proof.
  split_and!; [reflexivity|done|vm_compute; reflexivity|].
  exact (summary_counts_by_file terminal 0 scanned_state sample_mapping
           eq_refl (λ _ _, eq_refl)).
Defined.

(** Two files, the second with a count of two figures. *)
Example summary_example :
  printed
    (generate_translation_todo terminal 0
       {| printed := []; spawned := []; detect_calls := 0;
          heap := [[(ES, {| file := u "b.rs"; line := u "1"; content := [];
                            comment_text := [] |}
                         :: replicate 12
                              {| file := u "a.rs"; line := u "7";
                                 content := []; comment_text := [] |})]] |}).2
  = [ [NL] ++ u "=== Files to Translate Summary ===";
      [NL] ++ u "b.rs: 1 Spanish comments";
      [NL] ++ u "a.rs: 12 Spanish comments" ].
Proof. vm_compute. reflexivity. Qed.

(** C10: whatever the standard output does, the reference and the state,
    [print_comments_by_language] and [generate_translation_todo], each alone
    and one after the other, end with every dictionary object as it was:
    keys, their order and the records under them. *)
Theorem output_leaves_mapping_unchanged o r st :
  heap (print_comments_by_language o r st).2 = heap st ∧
  heap (generate_translation_todo o r st).2 = heap st ∧
  heap ((print_comments_by_language o r ;; generate_translation_todo o r) st).2
  = heap st.
Proof.
  destruct (heap st !! r) as [d|] eqn:Hd.
  - split_and!.
    + by rewrite (print_comments_by_language_spec o r st d).
    + by rewrite (generate_translation_todo_spec o r st d).
    + unfold bind. rewrite (print_comments_by_language_spec o r st d) by done.
      destruct (written o st _) as [[[]|e] st1] eqn:Hw;
        apply (f_equal (λ p, heap p.2)) in Hw; simpl in Hw; [|done].
      rewrite (generate_translation_todo_spec o r st1 d) by (by rewrite <- Hw).
      done.
  - unfold bind, print_comments_by_language, generate_translation_todo,
      get_or_empty, bind, load. rewrite !print_written.
    destruct (written o st [[NL] ++ u "=== Spanish Comments (es) ==="])
      as [[[]|e] st1] eqn:Hw1;
      apply (f_equal (λ p, heap p.2)) in Hw1; simpl in Hw1;
      destruct (written o st [[NL] ++ u "=== Files to Translate Summary ==="])
        as [[[]|e'] st2] eqn:Hw2;
      apply (f_equal (λ p, heap p.2)) in Hw2; simpl in Hw2;
      rewrite <- ?Hw1, <- ?Hw2, ?Hd; done.
Qed.

(** A mapping without the key [es] stays without it. *)
Example absent_key_stays_absent :
  let st := {| printed := []; spawned := []; detect_calls := 0;
               heap := [[(u "en", [])]] |} in
  (print_comments_by_language terminal 0 ;;
   generate_translation_todo terminal 0) st
  = (Ok tt,
     after_print st [ [NL] ++ u "=== Spanish Comments (es) ===";
                      [NL] ++ u "=== Files to Translate Summary ===" ]).
Proof. reflexivity. Qed.

(** ** Errors *)

(** A command line that parses: [main] is its [try] statement. *)
Lemma main_parsed parser o w argv st parsed :
  parser argv = Parsed parsed →
  main parser o w argv st
  = try_except
      (comments <- get_rust_comments w (default (u ".") parsed) ;;
       print_comments_by_language o comments ;;
       generate_translation_todo o comments)
      (fun e =>
         match class_of e with
         | FileNotFoundError => print o (u "Error: " ++ str_of e)
         | CalledProcessError =>
             print o (u "Error: Unable to search in directory: "
                      ++ default (u ".") parsed)
         | SystemExit => raise e
         | _ => print o (u "Error: An unexpected error occurred: " ++ str_of e)
         end) st.
Proof. intros Hp. unfold main, parse_args. by rewrite Hp. Qed.

(** A path that names nothing: [get_rust_comments] raises FileNotFoundError
    without having started a process, and [main], on a standard output that
    takes the line, prints the message and returns. *)
Lemma missing_path_not_found parser o w argv path st :
  parser argv = Parsed (Some path) →
  fs w path = None →
  o (printed st) (u "Error: Directory not found: " ++ path) = None →
  get_rust_comments w path st
  = (Raise (Exn FileNotFoundError (u "Directory not found: " ++ path)), st) ∧
  main parser o w argv st
  = (Ok tt, after_print st [u "Error: Directory not found: " ++ path]).
Proof.
  intros Hp Hnone Ho.
  assert (get_rust_comments w path st
          = (Raise (Exn FileNotFoundError (u "Directory not found: " ++ path)),
             st)) as Hget.
  { unfold get_rust_comments, os_path_exists. rewrite Hnone.
    rewrite bool_decide_false; [done|]. by intros [? ?]. }
  split; [done|]. rewrite (main_parsed _ _ _ _ _ _ Hp).
  unfold try_except, bind. simpl. rewrite Hget. simpl.
  unfold print. simpl in Ho. by rewrite Ho.
Qed.

(** A path that names a directory passes the check: the search is started. *)
Lemma existing_directory_searched w path st :
  fs w path = Some Dir →
  os_path_exists w path = true ∧
  spawned (get_rust_comments w path st).2 = spawned st ++ [(RG_ARGV, path)].
Proof.
  intros Hdir. unfold get_rust_comments, os_path_exists.
  rewrite Hdir, bool_decide_true by eauto. split; [done|]. simpl.
  unfold bind at 1, subprocess_run. simpl. rewrite Hdir.
  destruct (path_lookup w _) as [program|]; [|done].
  destruct (captured _) as [[out err]|]; [|done].
  simpl. unfold bind at 1, new_defaultdict. simpl. unfold bind at 1.
  erewrite scan_spec by (simpl; by apply list_lookup_middle). done.
Qed.

Lemma get_rust_comments_failure w directory st :
  (fs w directory = None ∨ fs w directory = Some File ∨
   path_lookup w (u "rg") = None ∨
   ∃ program, path_lookup w (u "rg") = Some program ∧
              captured (program RG_ARGV directory) = None) →
  ∃ e st', get_rust_comments w directory st = (Raise e, st') ∧
           class_of e ≠ CalledProcessError ∧ class_of e ≠ SystemExit ∧
           printed st' = printed st ∧ heap st' = heap st ∧
           detect_calls st' = detect_calls st.
Proof.
  unfold get_rust_comments, os_path_exists, bind, subprocess_run.
  change (path_lookup w (u "rg")) with (path_lookup w [114%N; 103%N]).
  destruct (fs w directory) as [[]|] eqn:Hfs; simpl.
  - destruct (path_lookup w _) as [program|]; [|by eauto 10].
    destruct (captured (program _ directory)) as [[??]|] eqn:Hc; [|by eauto 10].
    intros [?|[?|[?|(? & ? & Hn)]]]; simplify_eq.
  - eauto 10.
  - eauto 10.
Qed.

(** How a run of [get_rust_comments] ends: with an exception that is neither
    CalledProcessError nor SystemExit, nothing printed and no dictionary
    touched, or with a new mapping. *)
Lemma get_rust_comments_outcome w directory st :
  (∃ e st', get_rust_comments w directory st = (Raise e, st') ∧
            class_of e ≠ CalledProcessError ∧ class_of e ≠ SystemExit ∧
            printed st' = printed st ∧ heap st' = heap st ∧
            detect_calls st' = detect_calls st) ∨
  (∃ d st', get_rust_comments w directory st = (Ok (length (heap st)), st') ∧
            printed st' = printed st ∧ heap st' = heap st ++ [d]).
Proof.
  destruct (fs w directory) as [[]|] eqn:Hfs;
    [|left; apply get_rust_comments_failure; by eauto..].
  destruct (path_lookup w (u "rg")) as [program|] eqn:Hrg;
    [|left; apply get_rust_comments_failure; by eauto].
  destruct (captured (program RG_ARGV directory)) as [[out err]|] eqn:Hout;
    [|left; apply get_rust_comments_failure; by eauto 10].
  right. eexists _, _. split; [by eapply get_rust_comments_spec|done].
Qed.

(** Whatever goes wrong in the [try] of [main], it is not CalledProcessError:
    the search is run without [check], so its exit status is never looked at,
    and what standard output raises is of another class. *)
Lemma search_failure_handler_unreachable o w directory st e st' :
  (comments <- get_rust_comments w directory ;;
   print_comments_by_language o comments ;;
   generate_translation_todo o comments) st = (Raise e, st') →
  class_of e ≠ CalledProcessError.
Proof.
  unfold bind at 1.
  destruct (get_rust_comments_outcome w directory st)
    as [(e0 & st0 & -> & Hcls & _)|(d & st0 & -> & Hp & Hh)].
  - by intros [= <- _].
  - assert (heap st0 !! length (heap st) = Some d) as Hd
      by (rewrite Hh; by apply list_lookup_middle).
    unfold bind. rewrite (print_comments_by_language_spec _ _ _ d) by done.
    destruct (written o st0 _) as [[[]|e1] st1] eqn:Hw1.
    + pose proof (written_heap o st0
        (([NL] ++ u "=== Spanish Comments (es) ===")
         :: concat (comment_lines <$> dict_get d ES []))) as Hh1.
      rewrite Hw1 in Hh1. simpl in Hh1.
      rewrite (generate_translation_todo_spec _ _ _ d) by (by rewrite Hh1).
      intros Hw2. apply written_raises in Hw2. intros Hc. rewrite Hc in Hw2.
      by destruct Hw2 as [?|[?|?]].
    + intros [= <- _]. apply written_raises in Hw1. intros Hc.
      rewrite Hc in Hw1. by destruct Hw1 as [?|[?|?]].
Qed.

(** C1, on the code: ripgrep exits with status 2 in an existing directory.
    [get_rust_comments] returns an empty mapping, and [main] prints the two
    headers of an ordinary run; the message of the CalledProcessError handler
    is not printed. *)
Theorem search_failure_not_reported :
  main sample_parser terminal failing_search_world [u "src"] initial_state
  = (Ok tt,
     {| printed := [ [NL] ++ u "=== Spanish Comments (es) ===";
                     [NL] ++ u "=== Files to Translate Summary ===" ];
        spawned := [(RG_ARGV, u "src")];
        detect_calls := 0;
        heap := [[]] |}) ∧
  u "Error: Unable to search in directory: src"
  ∉ printed (main sample_parser terminal failing_search_world [u "src"]
               initial_state).2.
Proof. split; [reflexivity|compute_done]. Qed.

(** Without ripgrep on the machine the failure to start it is a
    FileNotFoundError, and [main] reports it through the handler of the
    missing directory. *)
Example missing_search_tool_reported_as_not_found :
  main sample_parser terminal no_search_tool_world [u "src"] initial_state
  = (Ok tt,
     {| printed := [u "Error: [Errno 2] No such file or directory: 'rg'"];
        spawned := [(RG_ARGV, u "src")];
        detect_calls := 0;
        heap := [] |}).
Proof. reflexivity. Qed.

(** C2, on the code: [Cargo.toml] names a file, not a directory.  The check
    passes, the search is started, and what is raised is NotADirectoryError,
    which [main] reports through its last handler. *)
Theorem regular_file_passes_validation :
  fs sample_world (u "Cargo.toml") = Some File ∧
  os_path_exists sample_world (u "Cargo.toml") = true ∧
  get_rust_comments sample_world (u "Cargo.toml") initial_state
  = (Raise (Exn NotADirectoryError
              (u "[Errno 20] Not a directory: 'Cargo.toml'")),
     {| printed := []; spawned := [(RG_ARGV, u "Cargo.toml")];
        detect_calls := 0; heap := [] |}) ∧
  main sample_parser terminal sample_world [u "Cargo.toml"] initial_state
  = (Ok tt,
     {| printed :=
          [u "Error: An unexpected error occurred: [Errno 20] Not a directory: 'Cargo.toml'"];
        spawned := [(RG_ARGV, u "Cargo.toml")];
        detect_calls := 0; heap := [] |}).
Proof. split_and!; reflexivity. Qed.

(** ** What standard output and the command line can do to a run *)

(** A request for help: the parser writes its help and leaves the program
    with status 0, before the [try] of [main]. *)
Example help_leaves_main :
  main sample_parser terminal sample_world [u "-h"] initial_state
  = (Raise (Exn SystemExit (u "0")),
     after_print initial_state [u "usage: spanish.py [-h] [directory]"]).
Proof. reflexivity. Qed.

(** An option the parser does not know: status 2, nothing on standard
    output. *)
Example unknown_option_leaves_main :
  main sample_parser terminal sample_world [u "--bogus"] initial_state
  = (Raise (Exn SystemExit (u "2")), initial_state).
Proof. reflexivity. Qed.

(** A standard output that cannot write a character of a comment: the listing
    stops at the line that holds it, and the last handler of [main] reports
    the error after the part of the report already printed. *)
Example partial_report :
  main sample_parser ascii_pipe accented_world [u "src"] initial_state
  = (Ok tt,
     {| printed :=
          [ [NL] ++ u "=== Spanish Comments (es) ===";
            [NL] ++ u "File: a.rs"; u "Line: 1";
            u "Error: An unexpected error occurred: 'ascii' codec can't encode character" ];
        spawned := [(RG_ARGV, u "src")];
        detect_calls := 1;
        heap := [[(ES, [ {| file := u "a.rs"; line := u "1";
                            content := u "// a" ++ [241%N] ++ u "o nuevo";
                            comment_text := u "a" ++ [241%N] ++ u "o nuevo" |} ])]] |}).
Proof. vm_compute. reflexivity. Qed.

(** A directory that does not exist and whose name standard output cannot
    write: the [print] of the handler raises, and the exception leaves
    [main]. *)
Example error_line_refused :
  main sample_parser ascii_pipe sample_world [u "a" ++ [241%N] ++ u "o"]
    initial_state
  = (Raise (Exn UnicodeEncodeError (u "'ascii' codec can't encode character")),
     initial_state).
Proof. reflexivity. Qed.

(** ** The string primitives on small inputs *)

Example strip_example : strip (u "  hola que tal  ") = u "hola que tal".
Proof. reflexivity. Qed.

Example split_example :
  split COLON (Some 2) (u "src/a.rs:12:let x = 1; // uno: dos")
  = [u "src/a.rs"; u "12"; u "let x = 1; // uno: dos"].
Proof. reflexivity. Qed.

Example split_lines_example :
  split NL None (u "a" ++ [NL] ++ u "b" ++ [NL]) = [u "a"; u "b"; []].
Proof. reflexivity. Qed.

Example re_search_example :
  re_search COMMENT_RE (u "let x = 1; //   uno: dos ") = Some (u "uno: dos ").
Proof. reflexivity. Qed.

(** The match is the leftmost one: a lone slash is passed over, and the two
    slashes of an address come before the comment that follows it. *)
Example re_search_leftmost :
  re_search COMMENT_RE (u "a / b; let url = http://x; // nota")
  = Some (u "x; // nota").
Proof. reflexivity. Qed.

Example re_search_nothing : re_search COMMENT_RE (u "a / b /") = None.
Proof. reflexivity. Qed.

Example str_of_nat_example : str_of_nat 120 = u "120".
Proof. reflexivity. Qed.

(** * Further properties of the script *)

(** ** What a run of [get_rust_comments] touches *)

(** X1: [get_rust_comments] prints nothing and leaves every dictionary that
    existed before as it was, whether it returns or raises; the mapping it
    returns is a new object. *)
Theorem get_rust_comments_frame w directory st :
  printed (get_rust_comments w directory st).2 = printed st ∧
  heap st `prefix_of` heap (get_rust_comments w directory st).2 ∧
  (∀ r, (get_rust_comments w directory st).1 = Ok r →
        heap st !! r = None ∧
        is_Some (heap (get_rust_comments w directory st).2 !! r)).
Proof.
  destruct (get_rust_comments_outcome w directory st)
    as [(e & st' & -> & _ & _ & Hp & Hh & _)|(d & st' & -> & Hp & Hh)]; simpl.
  - rewrite Hp, Hh. by split_and!.
  - rewrite Hh. split_and!; [done|by apply prefix_app_r|].
    intros r [= <-]. split; [by apply lookup_ge_None|].
    exists d. by apply list_lookup_middle.
Qed.

(** ** Runs of [main] *)

(** X2: on a standard output that takes every line, a run of [main] ends in
    one of three ways.  When the parser refuses the command line or is asked
    for help, SystemExit leaves [main] with the parser's status, after the
    parser's text if it wrote one, and nothing else is done.  Otherwise [main]
    returns, and it has either printed one line that starts with [Error: ],
    having created no mapping and asked the detector nothing, or printed the
    whole report of the Spanish records of the mapping it created. *)
Theorem main_outcomes parser o w argv st :
  accepts_everything o →
  match parser argv with
  | Exits status message =>
      main parser o w argv st
      = (Raise (Exn SystemExit (str_of_nat status)),
         after_print st (option_list message))
  | Parsed directory =>
      ∃ st', main parser o w argv st = (Ok tt, st') ∧
        ((∃ msg, printed st' = printed st ++ [u "Error: " ++ msg] ∧
                 heap st' = heap st ∧ detect_calls st' = detect_calls st) ∨
         (∃ d, heap st' = heap st ++ [d] ∧
               printed st' = printed st ++ report (dict_get d ES [])))
  end.
Proof.
  intros Ho. destruct (parser argv) as [directory|status message] eqn:Hp.
  - rewrite (main_parsed _ _ _ _ _ _ Hp). unfold try_except. unfold bind at 1.
    destruct (get_rust_comments_outcome w (default (u ".") directory) st)
      as [(e & st1 & -> & Hc & Hx & Hpr & Hh & Hn)|(d & st1 & -> & Hpr & Hh)].
    + destruct e as [cls msg]. simpl in Hc, Hx.
      destruct cls; try done; simpl; rewrite print_written, written_accepts
        by done;
        (eexists; split; [reflexivity|]); left; simpl; rewrite Hpr;
        (eexists; split_and!; [reflexivity|done..]).
    + assert (heap st1 !! length (heap st) = Some d) as Hd
        by (rewrite Hh; by apply list_lookup_middle).
      unfold bind.
      rewrite (print_comments_by_language_spec _ _ _ d), written_accepts
        by done.
      rewrite (generate_translation_todo_spec _ _ _ d), written_accepts
        by done.
      eexists. split; [done|]. right. exists d. split; [done|].
      simpl. rewrite Hpr, count_files_summary. unfold report.
      by rewrite <- !app_assoc.
  - unfold main, parse_args. rewrite Hp. unfold bind.
    destruct message as [text|].
    + rewrite print_written, written_accepts by done. done.
    + simpl. unfold after_print. rewrite app_nil_r. by destruct st.
Qed.

Lemma main_outcomes_witness :
  accepts_everything terminal ∧
  main sample_parser terminal sample_world [u "-h"] initial_state
  = (Raise (Exn SystemExit (u "0")),
     after_print initial_state [u "usage: spanish.py [-h] [directory]"]) ∧
  main sample_parser terminal sample_world [u "--bogus"] initial_state
  = (Raise (Exn SystemExit (u "2")), after_print initial_state []) ∧
  ∃ st', main sample_parser terminal sample_world [u "lib"] initial_state
         = (Ok tt, st') ∧
    ((∃ msg, printed st' = [] ++ [u "Error: " ++ msg] ∧
             heap st' = [] ∧ detect_calls st' = 0) ∨
     (∃ d, heap st' = [] ++ [d] ∧
           printed st' = [] ++ report (dict_get d ES []))).
Proof.
  split_and!; [done|..].
  - exact (main_outcomes sample_parser terminal sample_world [u "-h"]
             initial_state (λ _ _, eq_refl)).
  - exact (main_outcomes sample_parser terminal sample_world [u "--bogus"]
             initial_state (λ _ _, eq_refl)).
  - exact (main_outcomes sample_parser terminal sample_world [u "lib"]
             initial_state (λ _ _, eq_refl)).
Defined.

(** What standard output can do to a run: whatever leaves [main] is the
    parser's SystemExit or an error of standard output. *)
Lemma main_raises parser o w argv st e st' :
  main parser o w argv st = (Raise e, st') →
  class_of e = SystemExit ∨ class_of e = UnicodeEncodeError ∨
  class_of e = BrokenPipeError ∨ class_of e = ValueError.
Proof.
  destruct (parser argv) as [directory|status message] eqn:Hp.
  - rewrite (main_parsed _ _ _ _ _ _ Hp). unfold try_except.
    destruct ((comments <- get_rust_comments w (default (u ".") directory) ;;
               print_comments_by_language o comments ;;
               generate_translation_todo o comments) st)
      as [[[]|e1] st1] eqn:Hbody; [done|].
    destruct e1 as [cls msg]. simpl.
    destruct cls; try (by intros [= <- _]; left);
      rewrite print_written; intros Hw%written_raises; by right.
  - unfold main, parse_args. rewrite Hp. unfold bind.
    destruct message as [text|].
    + rewrite print_written.
      destruct (written o st [text]) as [[[]|e1] st1] eqn:Hw.
      * intros [= <- _]. by left.
      * intros [= <- _]. apply written_raises in Hw. by right.
    + intros [= <- _]. by left.
Qed.

(** X3: over an existing directory named on the command line, with ripgrep
    installed, its output decoded and a standard output that takes every
    line, [main] prints the report of the Spanish records and nothing else.
    The records are those of ripgrep's lines, in the order of the lines, for
    which the detector answered [es]; the report is the listing, three lines
    a record, then the summary, one line for each file in the order of its
    first record with the number of its records. *)
Theorem main_prints_report parser o w argv directory st program out err :
  parser argv = Parsed (Some directory) →
  fs w directory = Some Dir →
  path_lookup w (u "rg") = Some program →
  captured (program RG_ARGV directory) = Some (out, err) →
  accepts_everything o →
  ∃ st' d lines log es,
    main parser o w argv st = (Ok tt, st') ∧
    lines = split NL None out ∧
    join_lines lines = out ∧
    Forall (λ ln, NL ∉ ln) lines ∧
    log = scan_log w (detect_calls st) lines ∧
    es = (filter (λ p, p.1 = ES) log).*2 ∧
    dict_get d ES [] = es ∧
    heap st' = heap st ++ [d] ∧
    printed st'
    = printed st
      ++ (([NL] ++ u "=== Spanish Comments (es) ===")
          :: concat ((λ c, [[NL] ++ u "File: " ++ file c;
                            u "Line: " ++ line c;
                            u "Content: " ++ content c]) <$> es))
      ++ ([NL] ++ u "=== Files to Translate Summary ===")
         :: ((λ f, [NL] ++ f ++ u ": "
                   ++ str_of_nat (length (filter (λ c, file c = f) es))
                   ++ u " Spanish comments")
             <$> distinct (file <$> es)) ∧
    Forall (λ f, decimal_value
                   (str_of_nat (length (filter (λ c, file c = f) es)))
                 = Some (length (filter (λ c, file c = f) es)))
           (distinct (file <$> es)).
Proof.
  intros Hp Hdir Hrg Hout Ho.
  rewrite (main_parsed _ _ _ _ _ _ Hp). unfold try_except. unfold bind at 1.
  simpl. rewrite (get_rust_comments_spec _ _ _ _ _ _ Hdir Hrg Hout).
  unfold bind.
  erewrite print_comments_by_language_spec
    by (simpl; by apply list_lookup_middle).
  rewrite written_accepts by done.
  erewrite generate_translation_todo_spec
    by (simpl; by apply list_lookup_middle).
  rewrite written_accepts by done.
  eexists _, _, _, _, _. split_and!; [done|done| | |done|done| |done| |].
  - apply join_split.
  - apply Forall_forall. intros ln. apply split_lines_no_newline.
  - by rewrite dict_get_collect.
  - simpl. rewrite count_files_summary, dict_get_collect. unfold summary_of.
    rewrite <- list_fmap_compose, <- !app_assoc. done.
  - apply Forall_forall. intros f _. apply decimal_value_str_of_nat.
Qed.

Lemma main_prints_report_witness :
  sample_parser [u "src"] = Parsed (Some (u "src")) ∧
  fs sample_world (u "src") = Some Dir ∧
  path_lookup sample_world (u "rg")
  = Some (λ _ _, {| exit_status := 0;
                    captured := Some (sample_output, []) |}) ∧
  accepts_everything terminal ∧
  ∃ st', main sample_parser terminal sample_world [u "src"] initial_state
         = (Ok tt, st') ∧
    printed st'
    = [ [NL] ++ u "=== Spanish Comments (es) ===";
        [NL] ++ u "File: src/a.rs"; u "Line: 3"; u "Content: // hola que tal";
        [NL] ++ u "File: src/a.rs"; u "Line: 3"; u "Content: // hola que tal";
        [NL] ++ u "=== Files to Translate Summary ===";
        [NL] ++ u "src/a.rs: 2 Spanish comments" ].
Proof.
  split_and!; [reflexivity|reflexivity|reflexivity|done|].
  destruct (main_prints_report sample_parser terminal sample_world [u "src"]
              (u "src") initial_state _ sample_output []
              eq_refl eq_refl eq_refl eq_refl (λ _ _, eq_refl))
    as (st' & d & lines & log & es & Hrun & -> & _ & _ & -> & -> & _ & _
        & Hprinted & _).
  exists st'. split; [exact Hrun|]. rewrite Hprinted. vm_compute. reflexivity.
Defined.

(** The spec-side report of the records of the sample project. *)
Example sample_report :
  report [ {| file := u "b.rs"; line := u "1"; content := u "// uno";
              comment_text := u "uno" |};
           {| file := u "a.rs"; line := u "7"; content := u "// dos";
              comment_text := u "dos" |};
           {| file := u "b.rs"; line := u "9"; content := u "x // tres";
              comment_text := u "tres" |} ]
  = [ [NL] ++ u "=== Spanish Comments (es) ===";
      [NL] ++ u "File: b.rs"; u "Line: 1"; u "Content: // uno";
      [NL] ++ u "File: a.rs"; u "Line: 7"; u "Content: // dos";
      [NL] ++ u "File: b.rs"; u "Line: 9"; u "Content: x // tres";
      [NL] ++ u "=== Files to Translate Summary ===";
      [NL] ++ u "b.rs: 2 Spanish comments";
      [NL] ++ u "a.rs: 1 Spanish comments" ].
Proof. vm_compute. reflexivity. Qed.

(** ** The records and buckets of the returned mapping *)





(** X5: the returned mapping holds no empty bucket: a key is there only once
    a record went under it, and each key is there once. *)
Theorem buckets_nonempty w directory st program out err :
  fs w directory = Some Dir →
  path_lookup w (u "rg") = Some program →
  captured (program RG_ARGV directory) = Some (out, err) →
  ∃ r st' d,
    get_rust_comments w directory st = (Ok r, st') ∧
    heap st' !! r = Some d ∧
    NoDup d.*1 ∧
    ∀ k bucket, (k, bucket) ∈ d → bucket ≠ [] ∧ dict_get d k [] = bucket.
Proof.
  intros Hdir Hrg Hout. eexists _, _, _. split_and!.
  - by eapply get_rust_comments_spec.
  - simpl. by apply list_lookup_middle.
  - apply collect_NoDup. constructor.
  - intros k bucket Hin. split.
    + eapply (Forall_forall (λ p, p.2 ≠ [])) in Hin; [done|].
      apply collect_nonempty. constructor.
    + apply dict_elem_of in Hin; [|apply collect_NoDup; constructor].
      unfold dict_get. by rewrite Hin.
Qed.

Lemma buckets_nonempty_witness :
  fs sample_world (u "src") = Some Dir ∧
  path_lookup sample_world (u "rg")
  = Some (λ _ _, {| exit_status := 0;
                    captured := Some (sample_output, []) |}) ∧
  ∃ r st' d,
    get_rust_comments sample_world (u "src") initial_state = (Ok r, st') ∧
    heap st' !! r = Some d ∧
    NoDup d.*1 ∧
    ∀ k bucket, (k, bucket) ∈ d → bucket ≠ [] ∧ dict_get d k [] = bucket.
Proof.
  split_and!; [reflexivity|reflexivity|].
  exact (buckets_nonempty sample_world (u "src") initial_state
           _ sample_output [] eq_refl eq_refl eq_refl).
Defined.

(** X6: a successful run starts one process, ripgrep in the directory, and
    calls the detector once for each record it stores, so never for a line
    it drops. *)
Theorem detector_called_once_per_record w directory st program out err :
  fs w directory = Some Dir →
  path_lookup w (u "rg") = Some program →
  captured (program RG_ARGV directory) = Some (out, err) →
  ∃ r st' d,
    get_rust_comments w directory st = (Ok r, st') ∧
    heap st' !! r = Some d ∧
    detect_calls st' = detect_calls st + length (concat d.*2) ∧
    spawned st' = spawned st ++ [(RG_ARGV, directory)].
Proof.
  intros Hdir Hrg Hout. eexists _, _, _. split_and!.
  - by eapply get_rust_comments_spec.
  - simpl. by apply list_lookup_middle.
  - simpl. by rewrite collect_size.
  - done.
Qed.

Lemma detector_called_once_per_record_witness :
  fs sample_world (u "src") = Some Dir ∧
  path_lookup sample_world (u "rg")
  = Some (λ _ _, {| exit_status := 0;
                    captured := Some (sample_output, []) |}) ∧
  ∃ r st' d,
    get_rust_comments sample_world (u "src") initial_state = (Ok r, st') ∧
    heap st' !! r = Some d ∧
    detect_calls st' = 0 + length (concat d.*2) ∧
    spawned st' = [] ++ [(RG_ARGV, u "src")].
Proof.
  split_and!; [reflexivity|reflexivity|].
  exact (detector_called_once_per_record sample_world (u "src") initial_state
           _ sample_output [] eq_refl eq_refl eq_refl).
Defined.

(** ** What the output functions show *)

(** [distinct] keeps every element once, the first occurrences in their
    order. *)
Lemma distinct_elem_of (xs : list str) x : x ∈ distinct xs ↔ x ∈ xs.
Proof.
  induction xs as [|y xs IH]; [done|]. cbn [distinct].
  rewrite !elem_of_cons, list_elem_of_filter, IH.
  destruct (decide (x = y)) as [->|Hne]; [split; by left|].
  split; [intros [?|[_ ?]]; [done|by right]|intros [?|?]; [done|by right]].
Qed.

Lemma distinct_NoDup (xs : list str) : NoDup (distinct xs).
Proof.
  induction xs as [|y xs IH]; [constructor|]. cbn [distinct].
  constructor; [|by apply NoDup_filter].
  rewrite list_elem_of_filter. by intros [Hne _].
Qed.

Lemma filter_lookup_order {A} (P : A → Prop) `{!∀ x, Decision (P x)}
    (l : list A) i j a b :
  filter P l !! i = Some a → filter P l !! j = Some b → i < j →
  ∃ i1 j1, i1 < j1 ∧ l !! i1 = Some a ∧ l !! j1 = Some b.
Proof.
  revert i j. induction l as [|x l IH]; intros i j; [done|].
  rewrite filter_cons. destruct (decide (P x)) as [HP|HP].
  - destruct i as [|i], j as [|j]; try lia.
    + intros [= <-] Hb _. simpl in Hb.
      apply list_elem_of_lookup_2, list_elem_of_filter in Hb as [_ Hb].
      apply list_elem_of_lookup_1 in Hb as [j1 Hj1].
      exists 0, (S j1). split_and!; [lia|done..].
    + simpl. intros Ha Hb Hlt.
      destruct (IH i j Ha Hb) as (i1 & j1 & ? & ? & ?); [lia|].
      exists (S i1), (S j1). split_and!; [lia|done..].
  - intros Ha Hb Hlt.
    destruct (IH i j Ha Hb Hlt) as (i1 & j1 & ? & ? & ?).
    exists (S i1), (S j1). split_and!; [lia|done..].
Qed.

Lemma distinct_first_occurrences (xs : list str) i j f g :
  distinct xs !! i = Some f →
  distinct xs !! j = Some g →
  i < j →
  ∃ i', xs !! i' = Some f ∧ ∀ j', xs !! j' = Some g → i' < j'.
Proof.
  revert i j. induction xs as [|x xs IH]; intros i j; [done|].
  cbn [distinct]. destruct j as [|j]; [lia|]. simpl.
  intros Hf Hg Hlt.
  assert (g ≠ x) as Hgx.
  { apply list_elem_of_lookup_2, list_elem_of_filter in Hg. by destruct Hg. }
  destruct i as [|i].
  - injection Hf as <-. exists 0. split; [done|].
    intros [|j']; [|lia]. simpl. by intros [= <-].
  - simpl in Hf.
    destruct (filter_lookup_order _ _ _ _ _ _ Hf Hg) as (i1 & j1 & ? & ? & ?);
      [lia|].
    destruct (IH i1 j1) as (i' & ? & Hfirst); [done..|].
    exists (S i'). split; [done|].
    intros [|j']; simpl; [by intros [= <-]|].
    intros Hj'. apply Hfirst in Hj'. lia.
Qed.

(** X7: on a standard output that takes every line,
    [print_comments_by_language] prints its header and then, for each record
    of the Spanish bucket in the order of the bucket, the three lines of its
    file, line number and content: one line more than three times the number
    of Spanish records. *)
Theorem listing_shows_spanish_records o r st d :
  heap st !! r = Some d →
  accepts_everything o →
  ∃ st',
    print_comments_by_language o r st = (Ok tt, st') ∧
    printed st'
    = printed st
      ++ ([NL] ++ u "=== Spanish Comments (es) ===")
         :: concat ((λ c, [[NL] ++ u "File: " ++ file c;
                           u "Line: " ++ line c;
                           u "Content: " ++ content c])
                    <$> dict_get d ES []) ∧
    length (printed st')
    = length (printed st) + 1 + 3 * length (dict_get d ES []) ∧
    spawned st' = spawned st ∧ detect_calls st' = detect_calls st ∧
    heap st' = heap st.
Proof.
  intros Hd Ho. eexists. split.
  { rewrite (print_comments_by_language_spec o r st d) by done.
    by apply written_accepts. }
  split; [done|]. split; [|done].
  assert (∀ es : list Comment,
            length (concat (comment_lines <$> es)) = 3 * length es) as Hlen.
  { induction es as [|c es IH]; [done|].
    rewrite fmap_cons. cbn [concat]. rewrite length_app, IH. simpl. lia. }
  unfold after_print. cbn [printed]. rewrite length_app. cbn [length].
  rewrite Hlen. lia.
Qed.

Lemma listing_shows_spanish_records_witness :
  heap scanned_state !! 0 = Some sample_mapping ∧
  accepts_everything terminal ∧
  ∃ st',
    print_comments_by_language terminal 0 scanned_state = (Ok tt, st') ∧
    printed st'
    = [ [NL] ++ u "=== Spanish Comments (es) ===";
        [NL] ++ u "File: src/a.rs"; u "Line: 3"; u "Content: // hola que tal";
        [NL] ++ u "File: src/a.rs"; u "Line: 3"; u "Content: // hola que tal" ] ∧
    length (printed st') = 7.
Proof.
  split_and!; [reflexivity|done|].
  destruct (listing_shows_spanish_records terminal 0 scanned_state
              sample_mapping eq_refl (λ _ _, eq_refl))
    as (st' & Hrun & Hprinted & Hlen & _).
  exists st'. split_and!; [exact Hrun| |].
  - rewrite Hprinted. vm_compute. reflexivity.
  - rewrite Hlen. vm_compute. reflexivity.
Defined.

(** A standard output that refuses a line of the listing stops it there. *)
Example listing_stops_at_refused_line :
  print_comments_by_language ascii_pipe 0
    {| printed := []; spawned := []; detect_calls := 0;
       heap := [[(ES, [ {| file := u "a.rs"; line := u "1";
                           content := u "// a" ++ [241%N] ++ u "o";
                           comment_text := u "a" ++ [241%N] ++ u "o" |};
                        {| file := u "b.rs"; line := u "2";
                           content := u "// hola"; comment_text := u "hola" |} ])]] |}
  = (Raise (Exn UnicodeEncodeError (u "'ascii' codec can't encode character")),
     {| printed := [ [NL] ++ u "=== Spanish Comments (es) ===";
                     [NL] ++ u "File: a.rs"; u "Line: 1" ];
        spawned := []; detect_calls := 0;
        heap := [[(ES, [ {| file := u "a.rs"; line := u "1";
                            content := u "// a" ++ [241%N] ++ u "o";
                            comment_text := u "a" ++ [241%N] ++ u "o" |};
                         {| file := u "b.rs"; line := u "2";
                            content := u "// hola"; comment_text := u "hola" |} ])]] |}).
Proof. vm_compute. reflexivity. Qed.

(** X8: both output functions read the Spanish bucket only: two mappings with
    the same records under [es] give the same output and end the same way,
    whatever their other buckets hold and whatever standard output does. *)
Theorem output_reads_spanish_bucket_only o r r' st st' d d' :
  heap st !! r = Some d →
  heap st' !! r' = Some d' →
  dict_get d ES [] = dict_get d' ES [] →
  printed st = printed st' →
  printed (print_comments_by_language o r st).2
  = printed (print_comments_by_language o r' st').2 ∧
  printed (generate_translation_todo o r st).2
  = printed (generate_translation_todo o r' st').2 ∧
  (print_comments_by_language o r st).1
  = (print_comments_by_language o r' st').1 ∧
  (generate_translation_todo o r st).1
  = (generate_translation_todo o r' st').1.
Proof.
  intros Hd Hd' Hes Hp.
  rewrite (print_comments_by_language_spec o r st d),
    (print_comments_by_language_spec o r' st' d'),
    (generate_translation_todo_spec o r st d),
    (generate_translation_todo_spec o r' st' d') by done.
  unfold written. simpl. by rewrite Hes, Hp.
Qed.

Lemma output_reads_spanish_bucket_only_witness :
  heap scanned_state !! 0 = Some sample_mapping ∧
  heap {| printed := []; spawned := [(RG_ARGV, u "src")]; detect_calls := 4;
          heap := [[(ES, dict_get sample_mapping ES [])]] |} !! 0
  = Some [(ES, dict_get sample_mapping ES [])] ∧
  dict_get sample_mapping ES []
  = dict_get [(ES, dict_get sample_mapping ES [])] ES [] ∧
  printed (generate_translation_todo terminal 0 scanned_state).2
  = printed (generate_translation_todo terminal 0
               {| printed := []; spawned := [(RG_ARGV, u "src")];
                  detect_calls := 4;
                  heap := [[(ES, dict_get sample_mapping ES [])]] |}).2.
Proof.
  split_and!; [reflexivity..|].
  exact (proj1 (proj2 (output_reads_spanish_bucket_only terminal 0 0
                         scanned_state
                         {| printed := []; spawned := [(RG_ARGV, u "src")];
                            detect_calls := 4;
                            heap := [[(ES, dict_get sample_mapping ES [])]] |}
                         sample_mapping [(ES, dict_get sample_mapping ES [])]
                         eq_refl eq_refl eq_refl eq_refl))).
Defined.

(** X9: on a standard output that takes every line, the summary prints its
    header and one line [file: count Spanish comments] for each of its
    entries, the count in decimal, and the counts add up to the number of
    records in the Spanish bucket: every Spanish record is counted, once. *)
Theorem summary_counts_add_up o r st d :
  heap st !! r = Some d →
  accepts_everything o →
  ∃ items : list (str * nat),
    generate_translation_todo o r st
    = (Ok tt,
       after_print st
         (([NL] ++ u "=== Files to Translate Summary ===")
          :: ((λ item : str * nat,
                 [NL] ++ item.1 ++ u ": " ++ str_of_nat item.2
                 ++ u " Spanish comments") <$> items))) ∧
    Forall (λ n, decimal_value (str_of_nat n) = Some n) items.*2 ∧
    sum_list items.*2 = length (dict_get d ES []).
Proof.
  intros Hd Ho. exists (count_files (dict_get d ES [])). split_and!.
  - rewrite (generate_translation_todo_spec o r st d) by done.
    by apply written_accepts.
  - apply Forall_forall. intros n _. apply decimal_value_str_of_nat.
  - apply count_files_sum.
Qed.

Lemma summary_counts_add_up_witness :
  heap scanned_state !! 0 = Some sample_mapping ∧
  accepts_everything terminal ∧
  length (dict_get sample_mapping ES []) = 2 ∧
  ∃ items : list (str * nat),
    generate_translation_todo terminal 0 scanned_state
    = (Ok tt,
       after_print scanned_state
         (([NL] ++ u "=== Files to Translate Summary ===")
          :: ((λ item : str * nat,
                 [NL] ++ item.1 ++ u ": " ++ str_of_nat item.2
                 ++ u " Spanish comments") <$> items))) ∧
    Forall (λ n, decimal_value (str_of_nat n) = Some n) items.*2 ∧
    sum_list items.*2 = length (dict_get sample_mapping ES []).
Proof.
  split_and!; [reflexivity|done|reflexivity|].
  exact (summary_counts_add_up terminal 0 scanned_state sample_mapping
           eq_refl (λ _ _, eq_refl)).
Defined.

(** X10: on a standard output that takes every line, the summary prints,
    after its header, one line [file: count Spanish comments] for each file
    of the Spanish records, once each and in the order in which the files
    first appear in the bucket, that is, in scan order; the count is the
    number of records of the bucket that bear the file, in decimal. *)
Theorem summary_in_order_of_first_appearance o r st d :
  heap st !! r = Some d →
  accepts_everything o →
  generate_translation_todo o r st
  = (Ok tt,
     after_print st
       (([NL] ++ u "=== Files to Translate Summary ===")
        :: ((λ f, [NL] ++ f ++ u ": "
                  ++ str_of_nat
                       (length (filter (λ c, file c = f) (dict_get d ES [])))
                  ++ u " Spanish comments")
            <$> distinct (file <$> dict_get d ES [])))) ∧
  NoDup (distinct (file <$> dict_get d ES [])) ∧
  (∀ f, f ∈ distinct (file <$> dict_get d ES [])
        ↔ f ∈ file <$> dict_get d ES []) ∧
  (∀ i j f g,
     distinct (file <$> dict_get d ES []) !! i = Some f →
     distinct (file <$> dict_get d ES []) !! j = Some g →
     i < j →
     ∃ i', (file <$> dict_get d ES []) !! i' = Some f ∧
           ∀ j', (file <$> dict_get d ES []) !! j' = Some g → i' < j') ∧
  Forall (λ f, decimal_value
                 (str_of_nat
                    (length (filter (λ c, file c = f) (dict_get d ES []))))
               = Some (length (filter (λ c, file c = f) (dict_get d ES []))))
         (distinct (file <$> dict_get d ES [])).
Proof.
  intros Hd Ho. split_and!.
  - rewrite (generate_translation_todo_spec o r st d) by done.
    rewrite written_accepts by done.
    rewrite count_files_summary. unfold summary_of.
    by rewrite <- list_fmap_compose.
  - apply distinct_NoDup.
  - intros f. apply distinct_elem_of.
  - intros i j f g. apply distinct_first_occurrences.
  - apply Forall_forall. intros f _. apply decimal_value_str_of_nat.
Qed.

Lemma summary_in_order_of_first_appearance_witness :
  heap scanned_state !! 0 = Some sample_mapping ∧
  accepts_everything terminal ∧
  generate_translation_todo terminal 0 scanned_state
  = (Ok tt,
     after_print scanned_state
       [ [NL] ++ u "=== Files to Translate Summary ===";
         [NL] ++ u "src/a.rs: 2 Spanish comments" ]).
Proof.
  split_and!; [reflexivity|done|].
  rewrite (proj1 (summary_in_order_of_first_appearance terminal 0
                    scanned_state sample_mapping eq_refl (λ _ _, eq_refl))).
  vm_compute. reflexivity.
Defined.

(** Three files, the first seen again after the second. *)
Example summary_order_example :
  printed
    (generate_translation_todo terminal 0
       {| printed := []; spawned := []; detect_calls := 0;
          heap := [[(ES,
            [ {| file := u "b.rs"; line := u "1"; content := [];
                 comment_text := [] |};
              {| file := u "a.rs"; line := u "7"; content := [];
                 comment_text := [] |};
              {| file := u "b.rs"; line := u "9"; content := [];
                 comment_text := [] |};
              {| file := u "c.rs"; line := u "2"; content := [];
                 comment_text := [] |} ])]] |}).2
  = [ [NL] ++ u "=== Files to Translate Summary ===";
      [NL] ++ u "b.rs: 2 Spanish comments";
      [NL] ++ u "a.rs: 1 Spanish comments";
      [NL] ++ u "c.rs: 1 Spanish comments" ].
Proof. vm_compute. reflexivity. Qed.

(** ** The lines of ripgrep's output *)

(** X11: the loop of [get_rust_comments] over an output made of two parts
    joined by a newline is the loop over the first part followed by the loop
    over the second; and a newline at the end of the output adds nothing. *)
Theorem scan_of_joined_outputs w r (a b : str) st :
  for_each (split NL None (a ++ NL :: b)) (scan_line w r) st
  = (for_each (split NL None a) (scan_line w r) ;;
     for_each (split NL None b) (scan_line w r)) st ∧
  for_each (split NL None (a ++ [NL])) (scan_line w r) st
  = for_each (split NL None a) (scan_line w r) st.
Proof.
  split.
  - by rewrite split_app, for_each_app.
  - rewrite split_app.
    rewrite <- (app_nil_r (split NL None a)) at 2.
    apply for_each_skip. intros st'. by apply scan_line_skip.
Qed.

Lemma scan_log_ext w w' n lines :
  langdetect w = langdetect w' → scan_log w n lines = scan_log w' n lines.
Proof.
  intros Hdet. revert n. induction lines as [|ln lines IH]; intros n; [done|].
  simpl. destruct (record_of_line ln); [|done]. by rewrite Hdet, IH.
Qed.

(** X12: [get_rust_comments] uses the standard output of the search and
    nothing else of it: two machines whose ripgrep prints the same lines, with
    whatever exit status and standard error, give the same mapping and, for
    every command line that names the directory and every standard output,
    the same run of [main]. *)
Theorem search_status_and_stderr_ignored w w' directory st program program'
    out err err' :
  fs w directory = Some Dir →
  fs w' directory = Some Dir →
  path_lookup w (u "rg") = Some program →
  path_lookup w' (u "rg") = Some program' →
  captured (program RG_ARGV directory) = Some (out, err) →
  captured (program' RG_ARGV directory) = Some (out, err') →
  langdetect w = langdetect w' →
  get_rust_comments w directory st = get_rust_comments w' directory st ∧
  ∀ parser o argv,
    parser argv = Parsed (Some directory) →
    main parser o w argv st = main parser o w' argv st.
Proof.
  intros Hdir Hdir' Hrg Hrg' Hout Hout' Hdet.
  assert (get_rust_comments w directory st
          = get_rust_comments w' directory st) as Hget.
  { rewrite (get_rust_comments_spec _ _ _ _ _ _ Hdir Hrg Hout),
      (get_rust_comments_spec _ _ _ _ _ _ Hdir' Hrg' Hout').
    simpl. by rewrite (scan_log_ext w w'). }
  split; [done|]. intros parser o argv Hp.
  rewrite !(main_parsed _ _ _ _ _ _ Hp). unfold try_except, bind.
  change (default (u ".") (Some directory)) with directory.
  by rewrite Hget.
Qed.

Lemma search_status_and_stderr_ignored_witness :
  fs sample_world (u "src") = Some Dir ∧
  fs warning_world (u "src") = Some Dir ∧
  path_lookup sample_world (u "rg")
  = Some (λ _ _, {| exit_status := 0;
                    captured := Some (sample_output, []) |}) ∧
  path_lookup warning_world (u "rg")
  = Some (λ _ _, {| exit_status := 2;
                    captured := Some (sample_output,
                                      u "rg: ./c.rs: Permission denied") |}) ∧
  langdetect sample_world = langdetect warning_world ∧
  sample_parser [u "src"] = Parsed (Some (u "src")) ∧
  main sample_parser terminal sample_world [u "src"] initial_state
  = main sample_parser terminal warning_world [u "src"] initial_state.
Proof.
  split_and!; [reflexivity..|].
  exact (proj2 (search_status_and_stderr_ignored sample_world warning_world
                  (u "src") initial_state _ _ sample_output _ _
                  eq_refl eq_refl eq_refl eq_refl eq_refl eq_refl eq_refl)
           sample_parser terminal [u "src"] eq_refl).
Defined.

(** X13: when the command line parses and the directory, or [.] when none
    was given, names nothing, [main] starts no process, calls no detector
    and creates no mapping; it gives standard output the one line
    [Error: Directory not found: ] followed by the path.  If standard output
    takes the line [main] returns; if it refuses it, the error leaves
    [main]. *)
Theorem missing_directory_reported parser o w argv directory st :
  parser argv = Parsed directory →
  fs w (default (u ".") directory) = None →
  main parser o w argv st
  = match o (printed st)
            (u "Error: Directory not found: " ++ default (u ".") directory)
    with
    | None =>
        (Ok tt,
         after_print st
           [u "Error: Directory not found: " ++ default (u ".") directory])
    | Some (e, message) => (Raise (Exn (write_error_class e) message), st)
    end.
Proof.
  intros Hp Hnone. rewrite (main_parsed _ _ _ _ _ _ Hp).
  unfold try_except. unfold bind at 1.
  unfold get_rust_comments, os_path_exists. rewrite Hnone.
  rewrite bool_decide_false by (by intros [? ?]). simpl.
  unfold print. simpl.
  by destruct (o (printed st) _) as [[e message]|].
Qed.

Lemma missing_directory_reported_witness :
  sample_parser [] = Parsed None ∧
  fs sample_world (default (u ".") None) = None ∧
  main sample_parser terminal sample_world [] initial_state
  = (Ok tt, after_print initial_state [u "Error: Directory not found: ."]) ∧
  main sample_parser ascii_pipe sample_world [u "a" ++ [241%N] ++ u "o"]
    initial_state
  = (Raise (Exn UnicodeEncodeError (u "'ascii' codec can't encode character")),
     initial_state).
Proof.
  split_and!; [reflexivity|reflexivity|..].
  - exact (missing_directory_reported sample_parser terminal sample_world []
             None initial_state eq_refl eq_refl).
  - exact (missing_directory_reported sample_parser ascii_pipe sample_world
             [u "a" ++ [241%N] ++ u "o"] (Some (u "a" ++ [241%N] ++ u "o"))
             initial_state eq_refl eq_refl).
Defined.
